(** * repo_to_text.py: a shallow embedding and its properties

    The program flattens a directory tree into one text file.  This file
    embeds its functions (is_probably_binary, iter_files, read_text_file,
    process_file, write_header, main) as Rocq functions over an explicit
    model of the interpreter's environment, and proves the properties the
    specification states about them. *)

From Stdlib Require Import ZArith QArith Lia List Bool Ascii String.
From Stdlib.Strings Require Import Byte.
From Stdlib Require Import PrimFloat Uint63 DecimalString.
From stdpp Require Import base decidable option list gmap.

Local Open Scope Z_scope.

(** ** Data *)

(** A Python [str] is a sequence of Unicode code points. *)
Abbreviation str := (list N).

(** A Python [bytes] object is a sequence of bytes. *)
Abbreviation bytes := (list byte).

(** Source literals are written as Rocq strings and read as code points. *)
Definition u (s : string) : str :=
  List.map (fun a => N_of_ascii a) (list_ascii_of_string s).

(** The integer a [bytes] object yields when it is iterated or indexed. *)
Definition byte_val (b : byte) : Z := Z.of_N (Byte.to_N b).

Definition bytes_of (s : string) : bytes := list_byte_of_string s.

#[global] Instance byte_eq_decision : EqDecision byte := Byte.byte_eq_dec.

(** ** Exceptions

    Fallible calls return in [res]; [bind] propagates a raised exception,
    [try_except] is [try: ... except Exception: ...]. *)

Inductive exn : Type :=
| OSError
| UnicodeDecodeError
| UnicodeEncodeError
| ValueError
| LibraryError.

Inductive res (A : Type) : Type :=
| Ok (a : A)
| Raise (e : exn).
Arguments Ok {A} a.
Arguments Raise {A} e.

Definition bind {A B : Type} (m : res A) (k : A -> res B) : res B :=
  match m with
  | Ok a => k a
  | Raise e => Raise e
  end.

Definition try_except {A : Type} (m : res A) (handler : res A) : res A :=
  match m with
  | Ok a => Ok a
  | Raise _ => handler
  end.

Declare Scope res_scope.
Delimit Scope res_scope with res.
Notation "x <- m ;; k" := (bind m (fun x => k))
  (at level 100, m at next level, right associativity) : res_scope.

(** An operating-system call that fails raises [OSError]. *)
Definition os_call {A : Type} (r : option A) : res A :=
  match r with
  | Some a => Ok a
  | None => Raise OSError
  end.

(** A library call that fails raises some exception of the library. *)
Definition lib_call {A : Type} (r : option A) : res A :=
  match r with
  | Some a => Ok a
  | None => Raise LibraryError
  end.

(** ** Binary sniffer *)

(** [set(b"\t\n\r\f\b\x0c")] *)
Definition text_whitelist : gset Z := list_to_set [9; 10; 13; 12; 8; 12].

(** The [for b in sample] loop of [is_probably_binary], started with the
    current value of [suspicious].  [None] is the [return True] taken
    inside the loop; [Some n] is the value of [suspicious] when the loop
    runs to its end. *)
Fixpoint sniff_loop (sample : bytes) (suspicious : Z) : option Z :=
  match sample with
  | [] => Some suspicious
  | b :: rest =>
      let v := byte_val b in
      if v =? 0 then None
      else if (32 <=? v) && (v <=? 126) then sniff_loop rest suspicious
      else if bool_decide (v ∈ text_whitelist) then sniff_loop rest suspicious
      else if (127 <=? v) && (v <=? 159) then sniff_loop rest (suspicious + 1)
      else sniff_loop rest (suspicious + 1)
  end.

(** [a / b > 0.30] on Python ints.  Python computes the quotient in
    binary64, correctly rounded, and [0.30] is the double nearest to 3/10;
    the comparison is modelled over the rationals.  [ratio_gt_float] below
    is the binary64 computation, and [ratio_gt_float_agrees] checks that the
    two coincide on every ratio that a sample of at most 4096 bytes (the
    head [process_file] reads) can produce. *)
Definition ratio_gt_030 (a b : Z) : bool :=
  negb (Qle_bool (Qdiv (inject_Z a) (inject_Z b)) (Qmake 30 100)).

Definition is_probably_binary (sample : bytes) : bool :=
  match sample with
  | [] => false
  | _ =>
      if bool_decide (x00 ∈ sample) then true
      else
        match sniff_loop sample 0 with
        | None => true
        | Some suspicious =>
            ratio_gt_030 suspicious (Z.max 1 (Z.of_nat (length sample)))
        end
  end.

(** The same comparison in binary64 arithmetic. *)
Definition float_of_Z (z : Z) : float := PrimFloat.of_uint63 (Uint63.of_Z z).

Definition ratio_gt_float (a b : Z) : bool :=
  PrimFloat.ltb 0x1.3333333333333p-2%float (PrimFloat.div (float_of_Z a) (float_of_Z b)).

(** An exhaustive comparison of the two: a table of the integers 0..m as
    doubles, and for each denominator n the verdicts of all numerators
    0..n against the rational threshold 3n/10. *)
Fixpoint Z_from (count : nat) (i : Z) : list Z :=
  match count with
  | O => []
  | S k => i :: Z_from k (i + 1)
  end.

Definition float_table (m : nat) : list (Z * float) :=
  (fun z => (z, float_of_Z z)) <$> Z_from (S m) 0.

Fixpoint check_row (thr : Z) (fn : float) (count : nat)
  (tbl : list (Z * float)) : bool :=
  match count, tbl with
  | S k, (s, fs) :: tbl' =>
      eqb (PrimFloat.ltb 0x1.3333333333333p-2%float (PrimFloat.div fs fn))
          (thr <? s)
      && check_row thr fn k tbl'
  | _, _ => true
  end.

Definition ratio_check (m : nat) : bool :=
  let tbl := float_table m in
  forallb (fun '(n, fn) => check_row (3 * n / 10) fn (S (Z.to_nat n)) tbl)
          (tl tbl).

(** The words of the specification: a byte is suspicious when it is not
    printable ASCII (0x20-0x7E) and not tab, newline, carriage return, form
    feed or backspace. *)
Definition spec_suspicious (b : byte) : bool :=
  let v := byte_val b in
  negb ((32 <=? v) && (v <=? 126)) &&
  negb ((v =? 9) || (v =? 10) || (v =? 13) || (v =? 12) || (v =? 8)).

Definition spec_suspicious_count (sample : bytes) : Z :=
  Z.of_nat (length (List.filter spec_suspicious sample)).

(** Bytes in the range 0x7F-0xFF. *)
Definition high_byte (b : byte) : bool :=
  let v := byte_val b in (127 <=? v) && (v <=? 255).

Definition high_count (sample : bytes) : Z :=
  Z.of_nat (length (List.filter high_byte sample)).

(** ** String operations of the interpreter *)

(** [s.startswith(p)] *)
Fixpoint startswith (s p : str) : bool :=
  match p, s with
  | [], _ => true
  | _ :: _, [] => false
  | c :: p', d :: s' => (c =? d)%N && startswith s' p'
  end.

(** [s.endswith(p)] *)
Definition endswith (s p : str) : bool := startswith (rev s) (rev p).

(** [s.replace(old, new)] for a non-empty [old]: occurrences are replaced
    from the left and do not overlap. *)
Fixpoint replace_loop (fuel : nat) (old new s : str) : str :=
  match fuel with
  | O => s
  | S fuel' =>
      match s with
      | [] => []
      | c :: rest =>
          if startswith s old
          then new ++ replace_loop fuel' old new (drop (length old) s)
          else c :: replace_loop fuel' old new rest
      end
  end.

Definition str_replace (s old new : str) : str :=
  replace_loop (length s) old new s.

(** [sep.join(parts)] *)
Fixpoint str_join (sep : str) (parts : list str) : str :=
  match parts with
  | [] => []
  | [p] => p
  | p :: rest => p ++ sep ++ str_join sep rest
  end.

(** [str(n)] for an int *)
Definition str_of_int (n : Z) : str := u (NilZero.string_of_int (Z.to_int n)).

(** [str(b)] for a bool *)
Definition str_of_bool (b : bool) : str := if b then u "True" else u "False".

(** [s.rfind(c)] for a single character: the highest index, or -1. *)
Fixpoint rfind_from (i : Z) (c : N) (s : str) (found : Z) : Z :=
  match s with
  | [] => found
  | d :: rest => rfind_from (i + 1) c rest (if (d =? c)%N then i else found)
  end.

Definition rfind (s : str) (c : N) : Z := rfind_from 0 c s (-1).

(** [s[i:j]] for 0 <= i *)
Definition slice (s : str) (i j : Z) : str :=
  take (Z.to_nat (j - i)) (drop (Z.to_nat i) s).

Definition chr_slash : N := 47.
Definition chr_dot : N := 46.
Definition chr_lf : N := 10.
Definition chr_cr : N := 13.
Definition chr_space : N := 32.
Definition chr_tab : N := 9.

(** [os.path.splitext(p)] (POSIX flavour: [sep = '/'], no [altsep],
    [extsep = '.']).  The [while] loop of [genericpath._splitext] returns
    the split as soon as it meets a character other than a dot between the
    last separator and the last dot. *)
Definition splitext (p : str) : str * str :=
  let sepIndex := rfind p chr_slash in
  let dotIndex := rfind p chr_dot in
  if (dotIndex >? sepIndex)
     && existsb (fun c => negb (c =? chr_dot)%N) (slice p (sepIndex + 1) dotIndex)
  then (take (Z.to_nat dotIndex) p, drop (Z.to_nat dotIndex) p)
  else (p, []).

(** [os.path.join(a, b)] (POSIX flavour) *)
Definition path_join (a b : str) : str :=
  if startswith b [chr_slash] then b
  else if bool_decide (a = []) || endswith a [chr_slash] then a ++ b
  else a ++ [chr_slash] ++ b.

(** [sorted(xs)] on strings: ascending code-point order. *)
Fixpoint str_leb (a b : str) : bool :=
  match a, b with
  | [], _ => true
  | _ :: _, [] => false
  | c :: a', d :: b' => (c <? d)%N || ((c =? d)%N && str_leb a' b')
  end.

Fixpoint insert_sorted (x : str) (l : list str) : list str :=
  match l with
  | [] => [x]
  | y :: l' => if str_leb x y then x :: l else y :: insert_sorted x l'
  end.

Definition sorted (xs : list str) : list str :=
  fold_right insert_sorted [] xs.

(** ** Codecs *)

Inductive encoding : Type := Utf8 | Utf8Sig | Latin1 | Cp1252.

Inductive errors_mode : Type := Strict | Replace.

(** One step of the UTF-8 decoder at the head of the input. *)
Inductive utf8_result : Type :=
| U_end
| U_char (cp : Z) (consumed : nat)
| U_bad (skipped : nat).

Definition in_range (lo hi : Z) (b : byte) : bool :=
  (lo <=? byte_val b) && (byte_val b <=? hi).

Definition cont_bits (b : byte) : Z := byte_val b - 128.

Definition utf8_step (bs : bytes) : utf8_result :=
  match bs with
  | [] => U_end
  | b0 :: r0 =>
      let v0 := byte_val b0 in
      if v0 <? 128 then U_char v0 1
      else if v0 <? 194 then U_bad 1
      else if v0 <? 224 then
        match r0 with
        | b1 :: _ =>
            if in_range 128 191 b1
            then U_char ((v0 - 192) * 64 + cont_bits b1) 2
            else U_bad 1
        | [] => U_bad 1
        end
      else if v0 <? 240 then
        let lo := if v0 =? 224 then 160 else 128 in
        let hi := if v0 =? 237 then 159 else 191 in
        match r0 with
        | b1 :: r1 =>
            if in_range lo hi b1 then
              match r1 with
              | b2 :: _ =>
                  if in_range 128 191 b2
                  then U_char ((v0 - 224) * 4096 + cont_bits b1 * 64 + cont_bits b2) 3
                  else U_bad 2
              | [] => U_bad 2
              end
            else U_bad 1
        | [] => U_bad 1
        end
      else if v0 <? 245 then
        let lo := if v0 =? 240 then 144 else 128 in
        let hi := if v0 =? 244 then 143 else 191 in
        match r0 with
        | b1 :: r1 =>
            if in_range lo hi b1 then
              match r1 with
              | b2 :: r2 =>
                  if in_range 128 191 b2 then
                    match r2 with
                    | b3 :: _ =>
                        if in_range 128 191 b3
                        then U_char ((v0 - 240) * 262144 + cont_bits b1 * 4096
                                     + cont_bits b2 * 64 + cont_bits b3) 4
                        else U_bad 3
                    | [] => U_bad 3
                    end
                  else U_bad 2
              | [] => U_bad 2
              end
            else U_bad 1
        | [] => U_bad 1
        end
      else U_bad 1
  end.

(** The decoder loop; every step consumes at least one byte, so
    [length bs] steps are enough ([decode_utf8]).  In [Replace] mode an
    ill-formed sequence yields U+FFFD and decoding goes on. *)
Fixpoint decode_utf8_loop (fuel : nat) (errors : errors_mode) (bs : bytes)
  : option str :=
  match fuel with
  | O => Some []
  | S fuel' =>
      match utf8_step bs with
      | U_end => Some []
      | U_char cp k =>
          cons (Z.to_N cp) <$> decode_utf8_loop fuel' errors (drop k bs)
      | U_bad k =>
          match errors with
          | Strict => None
          | Replace =>
              cons 65533%N <$> decode_utf8_loop fuel' errors (drop k bs)
          end
      end
  end.

Definition decode_utf8 (errors : errors_mode) (bs : bytes) : option str :=
  decode_utf8_loop (length bs) errors bs.

(** utf-8-sig drops one leading byte-order mark. *)
Definition decode_utf8_sig (errors : errors_mode) (bs : bytes) : option str :=
  match bs with
  | xef :: xbb :: xbf :: rest => decode_utf8 errors rest
  | _ => decode_utf8 errors bs
  end.

(** latin-1 maps every byte to the code point of the same value. *)
Definition decode_latin1 (bs : bytes) : str := List.map Byte.to_N bs.

(** cp1252: the bytes 0x81, 0x8D, 0x8F, 0x90 and 0x9D are undefined. *)
Definition cp1252_table : list (option N) :=
  [Some 8364; None; Some 8218; Some 402; Some 8222; Some 8230; Some 8224;
   Some 8225; Some 710; Some 8240; Some 352; Some 8249; Some 338; None;
   Some 381; None; None; Some 8216; Some 8217; Some 8220; Some 8221;
   Some 8226; Some 8211; Some 8212; Some 732; Some 8482; Some 353;
   Some 8250; Some 339; None; Some 382; Some 376]%N.

Definition cp1252_char (errors : errors_mode) (b : byte) : option N :=
  let v := Byte.to_N b in
  if ((128 <=? v) && (v <=? 159))%N then
    match mjoin (cp1252_table !! N.to_nat (v - 128)) with
    | Some c => Some c
    | None => match errors with Strict => None | Replace => Some 65533%N end
    end
  else Some v.

Definition decode_cp1252 (errors : errors_mode) (bs : bytes) : option str :=
  mapM (cp1252_char errors) bs.

Definition decode (enc : encoding) (errors : errors_mode) (bs : bytes)
  : option str :=
  match enc with
  | Utf8 => decode_utf8 errors bs
  | Utf8Sig => decode_utf8_sig errors bs
  | Latin1 => Some (decode_latin1 bs)
  | Cp1252 => decode_cp1252 errors bs
  end.

(** A file opened in text mode with the default [newline=None] hands out
    its lines with "\r\n" and "\r" turned into "\n". *)
Fixpoint translate_newlines (s : str) : str :=
  match s with
  | [] => []
  | c :: rest =>
      if (c =? chr_cr)%N then
        match rest with
        | d :: rest' =>
            if (d =? chr_lf)%N then chr_lf :: translate_newlines rest'
            else chr_lf :: translate_newlines rest
        | [] => [chr_lf]
        end
      else c :: translate_newlines rest
  end.

(** ** Configuration constants *)

Definition DEFAULT_IGNORED_DIRS_list : list string :=
  [".git"; ".hg"; ".svn"; ".bzr"; "node_modules"; "__pycache__";
   ".pytest_cache"; ".mypy_cache"; "venv"; ".venv"; "env"; ".env"; "ENV";
   "dist"; "build"; "out"; "target"; "coverage"; "site-packages"; ".idea";
   ".vscode"; ".DS_Store"]%string.

Definition DEFAULT_IGNORED_DIRS : gset str := list_to_set (u <$> DEFAULT_IGNORED_DIRS_list).

Definition ALWAYS_SKIP_EXTS_list : list string :=
  [".png"; ".jpg"; ".jpeg"; ".gif"; ".bmp"; ".tiff"; ".tif"; ".webp";
   ".svgz"; ".mp3"; ".wav"; ".flac"; ".ogg"; ".mp4"; ".mkv"; ".avi";
   ".mov"; ".webm"; ".zip"; ".tar"; ".gz"; ".tgz"; ".bz2"; ".xz"; ".7z";
   ".rar"; ".exe"; ".dll"; ".so"; ".dylib"; ".class"; ".o"; ".a"; ".bin";
   ".wasm"; ".pdf"]%string.

Definition ALWAYS_SKIP_EXTS : gset str := list_to_set (u <$> ALWAYS_SKIP_EXTS_list).

Definition PREFER_TEXT_EXTS_list : list string :=
  [".py"; ".pyi"; ".pyx"; ".pxd"; ".js"; ".jsx"; ".ts"; ".tsx"; ".java";
   ".kt"; ".kts"; ".scala"; ".rb"; ".go"; ".rs"; ".c"; ".h"; ".cpp";
   ".hpp"; ".cc"; ".hh"; ".m"; ".mm"; ".cs"; ".vb"; ".fs"; ".fsx"; ".php";
   ".r"; ".jl"; ".pl"; ".lua"; ".sh"; ".bash"; ".zsh"; ".fish"; ".ps1";
   ".psm1"; ".psd1"; ".sql"; ".yaml"; ".yml"; ".json"; ".jsonc"; ".toml";
   ".ini"; ".cfg"; ".conf"; ".env"; ".properties"; ".html"; ".htm"; ".xml";
   ".svg"; ".xhtml"; ".xsd"; ".md"; ".rst"; ".txt"; ".csv"; ".tsv"; ".log";
   ".tex"; ".gradle"; ".sbt"; ".cabal"; ".nim"; ".hs"]%string.

Definition PREFER_TEXT_EXTS : gset str := list_to_set (u <$> PREFER_TEXT_EXTS_list).

Definition DOCX_EXTS_list : list string :=
  [".docx"]%string.

Definition DOCX_EXTS : gset str := list_to_set (u <$> DOCX_EXTS_list).

Definition PDF_EXTS_list : list string :=
  [".pdf"]%string.

Definition PDF_EXTS : gset str := list_to_set (u <$> PDF_EXTS_list).

Definition EXT_TO_LANG_list : list (string * string) :=
  [(".py", "python"); (".js", "javascript"); (".jsx", "jsx");
   (".ts", "typescript"); (".tsx", "tsx"); (".java", "java");
   (".kt", "kotlin"); (".kts", "kotlin"); (".scala", "scala");
   (".rb", "ruby"); (".go", "go"); (".rs", "rust"); (".c", "c");
   (".h", "c"); (".cpp", "cpp"); (".hpp", "cpp"); (".cc", "cpp");
   (".hh", "cpp"); (".m", "objective-c"); (".mm", "objective-cpp");
   (".cs", "csharp"); (".vb", "vbnet"); (".fs", "fsharp");
   (".fsx", "fsharp"); (".php", "php"); (".r", "r"); (".jl", "julia");
   (".pl", "perl"); (".lua", "lua"); (".sh", "bash"); (".bash", "bash");
   (".zsh", "zsh"); (".fish", "fish"); (".ps1", "powershell");
   (".psm1", "powershell"); (".psd1", "powershell"); (".sql", "sql");
   (".yaml", "yaml"); (".yml", "yaml"); (".json", "json");
   (".toml", "toml"); (".ini", "ini"); (".cfg", "ini"); (".conf", "ini");
   (".html", "html"); (".htm", "html"); (".xml", "xml"); (".svg", "xml");
   (".md", "markdown"); (".rst", "rst"); (".txt", "text"); (".csv", "csv");
   (".tsv", "tsv"); (".tex", "tex")]%string.

Definition EXT_TO_LANG : gmap str str :=
  list_to_map ((fun kv => (u kv.1, u kv.2)) <$> EXT_TO_LANG_list).

(** ** The environment of a run

    The file system and the libraries the program calls are an explicit
    environment: every primitive is a function of it, so the same query
    gives the same answer as long as the file system stays as it is.
    Nothing but the run modifies the tree meanwhile; what the run itself
    changes, the contents of its output file, is accounted for in the
    driver, which passes to each call of [process_file] the file system as
    it is once the text written so far has been written (see [Env] below).
    The primitives are independent of each other: the size of a file may be
    unavailable while its bytes can be read, and the other way round.  A
    call returns or raises: an [option] result is [None] when the call
    raises. *)

(** What [os.walk(root, followlinks=False)] sees at a directory.  [Dir] is
    a directory whose listing succeeds, with its sub-directory entries (in
    listing order, each with what is behind it) and its other entries;
    [Symlink] is a symbolic link to a directory, which is listed among the
    directory names and never walked; [NoAccess] is a directory whose
    listing raises, which the walk skips without yielding. *)
Inductive node : Type :=
| Dir (dirnames : forest) (filenames : list str)
| Symlink
| NoAccess
with forest : Type :=
| FNil
| FCons (name : str) (n : node) (rest : forest).

(** What [docx.Document(path)] exposes: the paragraphs' texts and, per
    table and per row, the cells' texts. *)
Record DocxDocument : Type := {
  paragraphs : list str;
  tables : list (list (list str));
}.

Record World : Type := {
  (** [s.lower()], from the interpreter's Unicode tables *)
  str_lower : str -> str;
  (** the two optional imports succeeded *)
  _HAS_PYMUPDF : bool;
  _HAS_PYTHON_DOCX : bool;
  (** [docx.Document(path)] with its paragraphs and tables read *)
  docx_Document : str -> option DocxDocument;
  (** [fitz.open(path)] with [get_text()] of every page *)
  fitz_open : str -> option (list str);
  os_path_getsize : str -> option Z;
  os_path_relpath : str -> str -> option str;
  os_path_abspath : str -> str;
  os_path_isdir : str -> bool;
  (** [with open(path, 'rb') as fb: fb.read(n)] *)
  open_rb_read : str -> nat -> option bytes;
  (** the bytes a text-mode [io.open(path, 'r', ...).read()] decodes *)
  open_r_read : str -> option bytes;
  (** the tree [os.walk] traverses from a root *)
  os_walk : str -> node;
  (** [io.open(path, 'w', encoding='utf-8')] succeeds *)
  open_w : str -> bool;
}.

(** ** Path enumerator *)

Definition keep_dir (include_hidden : bool) (ignored_dirs : gset str)
  (d : str) : bool :=
  if negb include_hidden && startswith d (u ".") then false
  else if bool_decide (d ∈ ignored_dirs) then false
  else true.

Definition keep_file (include_hidden : bool) (fname : str) : bool :=
  if negb include_hidden && startswith fname (u ".") then false else true.

(** [iter_files] at one directory of the walk: the directory names are
    filtered in place, the files of the directory are yielded, and the walk
    goes on into the directories that were kept. *)
Fixpoint iter_files_at (include_hidden : bool) (ignored_dirs : gset str)
  (dirpath : str) (n : node) : list str :=
  match n with
  | Dir dirnames filenames =>
      (path_join dirpath <$> List.filter (keep_file include_hidden) filenames)
      ++ iter_files_in include_hidden ignored_dirs dirpath dirnames
  | Symlink => []
  | NoAccess => []
  end
with iter_files_in (include_hidden : bool) (ignored_dirs : gset str)
  (dirpath : str) (f : forest) : list str :=
  match f with
  | FNil => []
  | FCons d n rest =>
      (if keep_dir include_hidden ignored_dirs d
       then iter_files_at include_hidden ignored_dirs (path_join dirpath d) n
       else [])
      ++ iter_files_in include_hidden ignored_dirs dirpath rest
  end.

Definition iter_files (w : World) (root : str) (include_hidden : bool)
  (ignored_dirs : gset str) : list str :=
  iter_files_at include_hidden ignored_dirs root (os_walk w root).

(** ** Reading and extraction *)

Local Open Scope res_scope.

Definition safe_relpath (w : World) (path start : str) : res str :=
  try_except
    (match os_path_relpath w path start with
     | Some rel => Ok rel
     | None => Raise ValueError
     end)
    (Ok path).

(** One [with io.open(path, 'r', encoding=enc, errors=...) as f: f.read()] *)
Definition open_read_text (w : World) (path : str) (enc : encoding)
  (errors : errors_mode) : res str :=
  raw <- os_call (open_r_read w path) ;;
  match decode enc errors raw with
  | Some s => Ok (translate_newlines s)
  | None => Raise UnicodeDecodeError
  end.

(** The [for enc in encodings] loop: [Some s] is the [return f.read()]. *)
Fixpoint read_text_loop (w : World) (path : str) (encodings : list encoding)
  : option str :=
  match encodings with
  | [] => None
  | enc :: rest =>
      match open_read_text w path enc Strict with
      | Ok s => Some s
      | Raise _ => read_text_loop w path rest
      end
  end.

Definition default_encodings : list encoding := [Utf8; Utf8Sig; Latin1; Cp1252].

Definition read_text_file (w : World) (path : str)
  (encodings : list encoding) : res (option str) :=
  match read_text_loop w path encodings with
  | Some s => Ok (Some s)
  | None =>
      try_except (s <- open_read_text w path Utf8 Replace ;; Ok (Some s))
                 (Ok None)
  end.

Definition extract_docx_text (w : World) (path : str) : res (option str) :=
  if negb (_HAS_PYTHON_DOCX w) then Ok None
  else
    try_except
      (document <- lib_call (docx_Document w path) ;;
       let parts := paragraphs document in
       let parts :=
         parts ++ (row ← mjoin (tables document); [str_join [chr_tab] row]) in
       Ok (Some (str_join [chr_lf] parts)))
      (Ok None).

Definition extract_pdf_text (w : World) (path : str) : res (option str) :=
  if negb (_HAS_PYMUPDF w) then Ok None
  else
    try_except
      (pages <- lib_call (fitz_open w path) ;;
       Ok (Some (str_join [chr_lf] pages)))
      (Ok None).

Definition fence_for_ext (w : World) (ext : str) : str * str :=
  let lang := default [] (EXT_TO_LANG !! str_lower w ext) in
  if negb (bool_decide (lang = []))
  then (u "```" ++ lang ++ [chr_lf], [chr_lf] ++ u "```" ++ [chr_lf])
  else (u "```" ++ [chr_lf], [chr_lf] ++ u "```" ++ [chr_lf]).

(** ** Core processing *)

(** The options [process_file] and [write_header] read, as [main] leaves
    them: the three sets are already built. *)
Record Args : Type := {
  include_hidden : bool;
  max_file_size : Z;
  pdf : bool;
  docx : bool;
  ignore_dirs : gset str;
  only_ext : gset str;
  skip_ext : gset str;
}.

(** Truth value of a set: non-empty. *)
Definition truthy (s : gset str) : bool := negb (bool_decide (s = ∅)).

(** The tail of [process_file] once [content] is settled. *)
Definition render (w : World) (rel : str) (size : Z) (ext : str)
  (content : option str) : option str :=
  match content with
  | None => None
  | Some content =>
      let content :=
        str_replace (str_replace content [chr_cr; chr_lf] [chr_lf])
                    [chr_cr] [chr_lf] in
      let header :=
        [chr_lf] ++ u "===== FILE: " ++ rel ++ u " (size=" ++ str_of_int size
        ++ u " bytes) =====" ++ [chr_lf] in
      let '(open_fence, close_fence) := fence_for_ext w ext in
      Some (header ++ open_fence ++ content ++ close_fence)
  end.

Definition process_file (w : World) (path root : str) (args : Args)
  : res (option str) :=
  let ext := str_lower w (splitext path).2 in
  if bool_decide (ext ∈ ALWAYS_SKIP_EXTS)
     && negb (bool_decide (ext ∈ PDF_EXTS) && pdf args && _HAS_PYMUPDF w)
  then Ok None
  else if (truthy (only_ext args) && negb (bool_decide (ext ∈ only_ext args)))
          || (truthy (skip_ext args) && bool_decide (ext ∈ skip_ext args))
  then Ok None
  else
    size <- try_except (os_call (os_path_getsize w path)) (Ok (-1)%Z) ;;
    if negb (max_file_size args =? 0)%Z && (size >? max_file_size args)%Z
    then Ok None
    else
      rel <- safe_relpath w path root ;;
      content <-
        (if bool_decide (ext ∈ DOCX_EXTS) && docx args
         then extract_docx_text w path else Ok None) ;;
      content <-
        (match content with
         | None =>
             if bool_decide (ext ∈ PDF_EXTS) && pdf args
             then extract_pdf_text w path else Ok None
         | Some _ => Ok content
         end) ;;
      match content with
      | Some _ => Ok (render w rel size ext content)
      | None =>
          match os_call (open_rb_read w path 4096) with
          | Raise _ => Ok None
          | Ok head =>
              if negb (bool_decide (ext ∈ PREFER_TEXT_EXTS))
                 && is_probably_binary head
              then Ok None
              else
                content <- read_text_file w path default_encodings ;;
                Ok (render w rel size ext content)
          end
      end.

(** ** Header *)

(** [text.split('\n')] *)
Fixpoint split_lines (s : str) : list str :=
  match s with
  | [] => [[]]
  | c :: rest =>
      if (c =? chr_lf)%N then [] :: split_lines rest
      else
        match split_lines rest with
        | l :: ls => (c :: l) :: ls
        | [] => [[c]]
        end
  end.

Definition is_ws (c : N) : bool := (c =? chr_space)%N || (c =? chr_tab)%N.

(** The blanks and tabs a line starts with, and what follows them. *)
Fixpoint leading_ws (l : str) : str :=
  match l with
  | c :: l' => if is_ws c then c :: leading_ws l' else []
  | [] => []
  end.

Fixpoint after_ws (l : str) : str :=
  match l with
  | c :: l' => if is_ws c then after_ws l' else l
  | [] => []
  end.

(** The zip loop of [textwrap.dedent]: cut [margin] at the first position
    where it differs from [indent]; without a difference it stays. *)
Fixpoint cut_at_mismatch (margin indent : str) : str :=
  match margin, indent with
  | x :: margin', y :: indent' =>
      if (x =? y)%N then x :: cut_at_mismatch margin' indent' else []
  | _, _ => margin
  end.

Definition margin_step (margin : option str) (indent : str) : option str :=
  match margin with
  | None => Some indent
  | Some m =>
      if startswith indent m then Some m
      else if startswith m indent then Some indent
      else Some (cut_at_mismatch m indent)
  end.

(** [_whitespace_only_re.sub('', text)] on one line: a line of blanks and
    tabs only is emptied. *)
Definition blank_to_empty (l : str) : str :=
  if forallb is_ws l then [] else l.

(** [_leading_whitespace_re.findall(text)]: the indents of the lines that
    have a character other than a blank or a tab. *)
Definition indents_of (lines : list str) : list str :=
  leading_ws <$>
    List.filter (fun l => negb (bool_decide (after_ws l = []))) lines.

(** [re.sub(r'(?m)^' + margin, '', text)] on one line. *)
Definition strip_margin (margin l : str) : str :=
  if startswith l margin then drop (length margin) l else l.

Definition dedent_lines (lines : list str) : list str :=
  let lines := blank_to_empty <$> lines in
  let margin := fold_left margin_step (indents_of lines) None in
  match margin with
  | Some (c :: m) => strip_margin (c :: m) <$> lines
  | _ => lines
  end.

(** [textwrap.dedent(text)], line by line: lines of blanks and tabs only
    are emptied; the indents of the lines that have another character are
    collected; their common margin is removed from the lines that start
    with it. *)
Definition dedent (text : str) : str :=
  str_join [chr_lf] (dedent_lines (split_lines text)).

(** A margin made of blanks and tabs. *)
Definition ws_margin (m : option str) : Prop :=
  match m with
  | Some m => Forall (fun c => is_ws c = true) m
  | None => True
  end.

Definition banner : str := u "==============================================".

(** A line break and the four blanks every line of the header's literal
    starts with. *)
Definition nl4 (s : string) : str := [chr_lf] ++ u "    " ++ u s.

Definition join_or_None (s : gset str) : str :=
  if truthy s then str_join (u ", ") (sorted (elements s)) else u "None".

(** The f-string of [write_header], before [textwrap.dedent]; [now] is
    [datetime.now().strftime('%Y-%m-%d %H:%M:%S')]. *)
Definition header_literal (w : World) (now root : str) (args : Args) : str :=
  [chr_lf] ++ u "    " ++ banner
  ++ nl4 "Repo to Text Export"
  ++ nl4 "Root: " ++ os_path_abspath w root
  ++ nl4 "Generated: (local time) " ++ now
  ++ nl4 "Include hidden: " ++ str_of_bool (include_hidden args)
  ++ nl4 "Max file size (bytes): "
  ++ (if negb (max_file_size args =? 0)%Z
      then str_of_int (max_file_size args) else u "None")
  ++ nl4 "PDF extraction enabled: " ++ str_of_bool (pdf args && _HAS_PYMUPDF w)
  ++ nl4 "DOCX extraction enabled: "
  ++ str_of_bool (docx args && _HAS_PYTHON_DOCX w)
  ++ nl4 "Ignored dirs: " ++ str_join (u ", ") (sorted (elements (ignore_dirs args)))
  ++ nl4 "Only extensions: " ++ join_or_None (only_ext args)
  ++ nl4 "Skipped extensions: " ++ join_or_None (skip_ext args)
  ++ [chr_lf] ++ u "    " ++ banner
  ++ [chr_lf] ++ u "    ".

(** What [write_header] writes to [out]. *)
Definition write_header (w : World) (now root : str) (args : Args) : str :=
  dedent (header_literal w now root args) ++ [chr_lf].

(** ** Pipeline driver *)

(** The parsed command line, as [parser.parse_args] returns it. *)
Record Namespace : Type := {
  ns_root : str;
  ns_output : str;
  ns_include_hidden : bool;
  ns_no_default_ignores : bool;
  ns_ignore_dir : list str;
  ns_max_file_size : Z;
  ns_pdf : bool;
  ns_docx : bool;
  ns_only_ext : list str;
  ns_skip_ext : list str;
}.

(** [set(e if e.startswith('.') else f'.{e}' for e in exts)] and then
    [set(e.lower() for e in ...)] *)
Definition normalize_exts (w : World) (exts : list str) : gset str :=
  let dotted : gset str :=
    list_to_set ((fun e => if startswith e (u ".") then e else u "." ++ e) <$> exts) in
  set_map (str_lower w) dotted.

(** The options after the normalisation at the top of [main]. *)
Definition main_args (w : World) (ns : Namespace) : Args :=
  let ignore_dirs : gset str := list_to_set (ns_ignore_dir ns) in
  let ignore_dirs :=
    if negb (ns_no_default_ignores ns)
    then ignore_dirs ∪ DEFAULT_IGNORED_DIRS else ignore_dirs in
  {| include_hidden := ns_include_hidden ns;
     max_file_size :=
       if (ns_max_file_size ns <=? 0)%Z then 0%Z else ns_max_file_size ns;
     pdf := ns_pdf ns;
     docx := ns_docx ns;
     ignore_dirs := ignore_dirs;
     only_ext := normalize_exts w (ns_only_ext ns);
     skip_ext := normalize_exts w (ns_skip_ext ns) |}.

(** The variables of the loop of [main]: the text written to [out] so far
    and the two counters. *)
Record LoopState : Type := {
  out : str;
  count_total : Z;
  count_included : Z;
}.

Definition incr_total (st : LoopState) : LoopState :=
  {| out := out st; count_total := count_total st + 1;
     count_included := count_included st |}.

Definition incr_included (st : LoopState) : LoopState :=
  {| out := out st; count_total := count_total st;
     count_included := count_included st + 1 |}.

(** ** The output stream

    [io.open(args.output, 'w', encoding='utf-8')] gives a text stream whose
    [write] encodes its argument.  A lone surrogate (a code point from
    U+D800 to U+DFFF, which [os.walk] and [sys.argv] produce for a name that
    is not valid UTF-8) has no UTF-8 encoding: [write] raises
    [UnicodeEncodeError] on a text that holds one. *)
Definition is_surrogate (c : N) : bool := ((55296 <=? c) && (c <=? 57343))%N.

Definition encodable (s : str) : bool :=
  forallb (fun c => negb (is_surrogate c)) s.

(** The environment of one run.  [at_start] is the file system as [main]
    finds it, with the output file open; [seen_after o] is the file system
    the calls of [process_file] find once the run has written the text [o]
    to its output stream: when the output file lies inside the scanned
    tree, the run reads back what has reached the file of its own output.
    [device_takes o] tells whether the device below the stream takes the
    text [o] (when it does not, the write raises [OSError]);
    [stdout_error s] is the exception, if any, that printing [s] on the
    standard output raises. *)
Record Env : Type := {
  at_start : World;
  seen_after : str -> World;
  device_takes : str -> bool;
  stdout_error : str -> option exn;
}.

(** The run in [w] whose output file is out of the reach of its own reads,
    with a device and a standard output that take everything. *)
Definition detached (w : World) : Env :=
  {| at_start := w; seen_after := fun _ => w;
     device_takes := fun _ => true; stdout_error := fun _ => None |}.

(** [out.write(s)] *)
Definition out_write (env : Env) (st : LoopState) (s : str) : res LoopState :=
  if negb (encodable s) then Raise UnicodeEncodeError
  else if negb (device_takes env (out st ++ s)) then Raise OSError
  else Ok {| out := out st ++ s; count_total := count_total st;
             count_included := count_included st |}.

(** [out.write(chunk)] and the line break added when the chunk lacks one. *)
Definition write_chunk (env : Env) (st : LoopState) (chunk : str)
  : res LoopState :=
  st <- out_write env st chunk ;;
  if negb (endswith chunk [chr_lf]) then out_write env st [chr_lf] else Ok st.

(** One iteration of the [for path in iter_files(...)] loop. *)
Definition loop_body (env : Env) (root : str) (args : Args)
  (st : LoopState) (path : str) : res LoopState :=
  let st := incr_total st in
  chunk <- process_file (seen_after env (out st)) path root args ;;
  match chunk with
  | Some chunk =>
      st <- write_chunk env st chunk ;;
      Ok (incr_included st)
  | None => Ok st
  end.

Fixpoint run_loop (env : Env) (root : str) (args : Args)
  (paths : list str) (st : LoopState) : res LoopState :=
  match paths with
  | [] => Ok st
  | path :: rest =>
      st <- loop_body env root args st path ;;
      run_loop env root args rest st
  end.

Definition write_summary (env : Env) (st : LoopState) : res LoopState :=
  st <- out_write env st ([chr_lf] ++ u "===== SUMMARY =====" ++ [chr_lf]) ;;
  st <- out_write env st
          (u "Files scanned: " ++ str_of_int (count_total st) ++ [chr_lf]) ;;
  out_write env st
    (u "Files included: " ++ str_of_int (count_included st) ++ [chr_lf]).

(** What a run that returns leaves behind: the exit code, the text of the
    output file (when it was opened), the two counters at the end, and what
    was printed. *)
Record Outcome : Type := {
  exit_code : Z;
  output_file : option str;
  final_counts : option (Z * Z);
  stdout : str;
  stderr : str;
}.

Definition main (env : Env) (now : str) (ns : Namespace) : res Outcome :=
  let w := at_start env in
  let root := os_path_abspath w (ns_root ns) in
  if negb (os_path_isdir w root) then
    Ok {| exit_code := 2; output_file := None; final_counts := None;
          stdout := [];
          stderr := u "Error: '" ++ root ++ u "' is not a directory" ++ [chr_lf] |}
  else
    let args := main_args w ns in
    _ <- os_call (if open_w w (ns_output ns) then Some tt else None) ;;
    st <- out_write env {| out := []; count_total := 0; count_included := 0 |}
            (write_header w now root args) ;;
    st <- run_loop env root args
            (iter_files w root (include_hidden args) (ignore_dirs args)) st ;;
    st <- write_summary env st ;;
    let message :=
      u "Wrote " ++ ns_output ns ++ u ". Files scanned: "
      ++ str_of_int (count_total st) ++ u ", included: "
      ++ str_of_int (count_included st) ++ [chr_lf] in
    match stdout_error env message with
    | Some e => Raise e
    | None =>
        Ok {| exit_code := 0; output_file := Some (out st);
              final_counts := Some (count_total st, count_included st);
              stdout := message;
              stderr := [] |}
    end.

(** The [with] block of [main], statement by statement.  A configuration is
    a program point, with the paths the enumerator has still to yield, and
    the loop variables; [AtRaise e] is the block left by the exception
    [e]. *)
Inductive point : Type :=
| AtHeader (header : str) (pending : list str)
| AtFor (pending : list str)
| AtProcess (path : str) (pending : list str)
| AtWrite (chunk : str) (pending : list str)
| AtNewline (chunk : str) (pending : list str)
| AtCount (pending : list str)
| AtSummary
| AtEnd
| AtRaise (e : exn).

Inductive step (env : Env) (root : str) (args : Args)
  : point * LoopState -> point * LoopState -> Prop :=
| step_header header pending st st' :
    out_write env st header = Ok st' ->
    step env root args (AtHeader header pending, st) (AtFor pending, st')
| step_header_raise header pending st e :
    out_write env st header = Raise e ->
    step env root args (AtHeader header pending, st) (AtRaise e, st)
| step_next path pending st :
    step env root args (AtFor (path :: pending), st)
                       (AtProcess path pending, incr_total st)
| step_exhausted st :
    step env root args (AtFor [], st) (AtSummary, st)
| step_skip path pending st :
    process_file (seen_after env (out st)) path root args = Ok None ->
    step env root args (AtProcess path pending, st) (AtFor pending, st)
| step_chunk path pending st chunk :
    process_file (seen_after env (out st)) path root args = Ok (Some chunk) ->
    step env root args (AtProcess path pending, st) (AtWrite chunk pending, st)
| step_process_raise path pending st e :
    process_file (seen_after env (out st)) path root args = Raise e ->
    step env root args (AtProcess path pending, st) (AtRaise e, st)
| step_write chunk pending st st' :
    out_write env st chunk = Ok st' ->
    step env root args (AtWrite chunk pending, st) (AtNewline chunk pending, st')
| step_write_raise chunk pending st e :
    out_write env st chunk = Raise e ->
    step env root args (AtWrite chunk pending, st) (AtRaise e, st)
| step_newline chunk pending st st' :
    (if negb (endswith chunk [chr_lf]) then out_write env st [chr_lf]
     else Ok st) = Ok st' ->
    step env root args (AtNewline chunk pending, st) (AtCount pending, st')
| step_newline_raise chunk pending st e :
    (if negb (endswith chunk [chr_lf]) then out_write env st [chr_lf]
     else Ok st) = Raise e ->
    step env root args (AtNewline chunk pending, st) (AtRaise e, st)
| step_count pending st :
    step env root args (AtCount pending, st) (AtFor pending, incr_included st)
| step_summary st st' :
    write_summary env st = Ok st' ->
    step env root args (AtSummary, st) (AtEnd, st')
| step_summary_raise st e :
    write_summary env st = Raise e ->
    step env root args (AtSummary, st) (AtRaise e, st).

(** The configuration in which the [with] block of [main] starts. *)
Definition initial (env : Env) (now : str) (ns : Namespace)
  : point * LoopState :=
  let w := at_start env in
  let root := os_path_abspath w (ns_root ns) in
  let args := main_args w ns in
  (AtHeader (write_header w now root args)
            (iter_files w root (include_hidden args) (ignore_dirs args)),
   {| out := []; count_total := 0; count_included := 0 |}).

(** ** Concrete environments

    Small file systems on which the definitions above are evaluated. *)

(** [s.lower()] on ASCII text. *)
Definition ascii_lower (s : str) : str :=
  (fun c => if ((65 <=? c) && (c <=? 90))%N then (c + 32)%N else c) <$> s.

(** What a test environment knows of one file: the result of [getsize]
    and the bytes reads return ([None] where the call raises). *)
Record FileInfo : Type := {
  fi_size : option Z;
  fi_data : option bytes;
}.

Definition readable (data : string) : FileInfo :=
  {| fi_size := Some (Z.of_nat (length (bytes_of data)));
     fi_data := Some (bytes_of data) |}.

(** An environment without the optional libraries, scanning the directory
    [/repo] whose tree is [tree] and whose files are [files]. *)
Definition mk_world (tree : node) (files : list (string * FileInfo)) : World :=
  let table : gmap str FileInfo :=
    list_to_map ((fun kv => (u kv.1, kv.2)) <$> files) in
  {| str_lower := ascii_lower;
     _HAS_PYMUPDF := false;
     _HAS_PYTHON_DOCX := false;
     docx_Document := fun _ => None;
     fitz_open := fun _ => None;
     os_path_getsize := fun p => table !! p ≫= fi_size;
     os_path_relpath := fun p start =>
       if startswith p (start ++ [chr_slash])
       then Some (drop (S (length start)) p) else None;
     os_path_abspath := fun p => p;
     os_path_isdir := fun p => bool_decide (p = u "/repo");
     open_rb_read := fun p n => take n <$> (table !! p ≫= fi_data);
     open_r_read := fun p => table !! p ≫= fi_data;
     os_walk := fun p => if bool_decide (p = u "/repo") then tree else NoAccess;
     open_w := fun _ => true |}.

Definition demo_tree : node :=
  Dir (FCons (u "node_modules") (Dir FNil [u "index.js"])
      (FCons (u "src") (Dir FNil [u "big.txt"]) FNil))
      [u "a.py"; u "b.png"; u ".hidden"].

Definition demo_world : World :=
  mk_world demo_tree
    [("/repo/a.py", readable "print(1)");
     ("/repo/b.png", {| fi_size := Some 4; fi_data := Some [x89; x50; x00; x47] |});
     ("/repo/.hidden", readable "secret");
     ("/repo/node_modules/index.js", readable "x");
     ("/repo/src/big.txt", readable "0123456789")]%string.

(** [a.py] can be sized but not opened (no read permission). *)
Definition locked_world : World :=
  mk_world (Dir FNil [u "a.py"])
    [("/repo/a.py", {| fi_size := Some 8; fi_data := None |})]%string.


Definition demo_ns : Namespace :=
  {| ns_root := u "/repo"; ns_output := u "repo_dump.txt";
     ns_include_hidden := false; ns_no_default_ignores := false;
     ns_ignore_dir := []; ns_max_file_size := 0;
     ns_pdf := false; ns_docx := false;
     ns_only_ext := []; ns_skip_ext := [] |}.

Definition demo_args : Args := main_args demo_world demo_ns.

Definition set_max_file_size (args : Args) (n : Z) : Args :=
  {| include_hidden := include_hidden args; max_file_size := n;
     pdf := pdf args; docx := docx args; ignore_dirs := ignore_dirs args;
     only_ext := only_ext args; skip_ext := skip_ext args |}.

Definition demo_now : str := u "2024-01-02 03:04:05".


(** Options whose allow-list and deny-list both hold [.py]. *)
Definition both_lists_args : Args :=
  {| include_hidden := false; max_file_size := 0; pdf := false; docx := false;
     ignore_dirs := DEFAULT_IGNORED_DIRS;
     only_ext := {[ u ".py" ]}; skip_ext := {[ u ".py" ]} |}.

(** ** Locations in the walked tree *)

(** The directory entries of a listing, in order. *)
Fixpoint entries (f : forest) : list (str * node) :=
  match f with
  | FNil => []
  | FCons d n rest => (d, n) :: entries rest
  end.

(** [located t ds f]: in the tree [t], the file entry [f] lies in the
    directory reached through the directories named [ds]. *)
Inductive located : node -> list str -> str -> Prop :=
| located_here dirnames filenames f :
    f ∈ filenames -> located (Dir dirnames filenames) [] f
| located_below dirnames filenames d sub ds f :
    (d, sub) ∈ entries dirnames -> located sub ds f ->
    located (Dir dirnames filenames) (d :: ds) f.

(** Two trees that differ at most inside directories whose name is in
    [ignored]. *)
Inductive agree_outside (ignored : gset str) : node -> node -> Prop :=
| agree_dir dirnames dirnames' filenames :
    agree_forest ignored dirnames dirnames' ->
    agree_outside ignored (Dir dirnames filenames) (Dir dirnames' filenames)
| agree_symlink : agree_outside ignored Symlink Symlink
| agree_noaccess : agree_outside ignored NoAccess NoAccess
with agree_forest (ignored : gset str) : forest -> forest -> Prop :=
| agree_nil : agree_forest ignored FNil FNil
| agree_ignored d n n' rest rest' :
    d ∈ ignored -> agree_forest ignored rest rest' ->
    agree_forest ignored (FCons d n rest) (FCons d n' rest')
| agree_kept d n n' rest rest' :
    agree_outside ignored n n' -> agree_forest ignored rest rest' ->
    agree_forest ignored (FCons d n rest) (FCons d n' rest').

Scheme node_forest_ind := Induction for node Sort Prop
  with forest_node_ind := Induction for forest Sort Prop.

Scheme agree_outside_mut := Minimality for agree_outside Sort Prop
  with agree_forest_mut := Minimality for agree_forest Sort Prop.

(** [demo_world] with other contents in [node_modules]. *)
Definition demo_tree' : node :=
  Dir (FCons (u "node_modules")
         (Dir (FCons (u "pkg") (Dir FNil [u "x.js"; u "y.js"]) FNil) [u "z.js"])
      (FCons (u "src") (Dir FNil [u "big.txt"]) FNil))
      [u "a.py"; u "b.png"; u ".hidden"].

Definition demo_world' : World := mk_world demo_tree' [].

(** ** The counters along a run

    What holds of the counters at each program point, for an enumeration
    of [total] paths: the paths counted so far and those still pending make
    up the enumeration, and the included counter has not passed the scanned
    one. *)
Definition counters_inv (total : list str) (c : point * LoopState) : Prop :=
  let st := c.2 in
  match c.1 with
  | AtHeader _ pending | AtFor pending =>
      count_total st + Z.of_nat (length pending) = Z.of_nat (length total)
      /\ 0 <= count_included st <= count_total st
  | AtProcess _ pending | AtWrite _ pending | AtNewline _ pending
  | AtCount pending =>
      count_total st + Z.of_nat (length pending) = Z.of_nat (length total)
      /\ 0 <= count_included st < count_total st
  | AtSummary | AtEnd =>
      count_total st = Z.of_nat (length total)
      /\ 0 <= count_included st <= count_total st
  | AtRaise _ =>
      0 <= count_included st <= count_total st
  end.

Definition demo_later : str := u "2031-12-30 23:59:59".

(** ** Further notions used in the statements below *)

(** The bytes the loop of [is_probably_binary] passes over without
    counting: printable ASCII and the whitelist. *)
Definition clean_byte (b : byte) : bool :=
  ((32 <=? byte_val b) && (byte_val b <=? 126))%Z
  || bool_decide (byte_val b ∈ text_whitelist).

(** A UTF-8 file that starts with a byte-order mark. *)
Definition bom_world : World :=
  mk_world (Dir FNil [u "bom.txt"])
    [("/repo/bom.txt",
      {| fi_size := Some 5; fi_data := Some [xef; xbb; xbf; x68; x69] |})]%string.

(** The values [extract_docx_text] and [extract_pdf_text] return. *)
Definition docx_text (w : World) (path : str) : option str :=
  if _HAS_PYTHON_DOCX w then
    (fun document =>
       str_join [chr_lf]
         (paragraphs document
          ++ (row ← mjoin (tables document); [str_join [chr_tab] row])))
      <$> docx_Document w path
  else None.

Definition pdf_text (w : World) (path : str) : option str :=
  if _HAS_PYMUPDF w then str_join [chr_lf] <$> fitz_open w path else None.

(** The two replacements of [process_file] on the content. *)
Definition normalize_newlines (content : str) : str :=
  str_replace (str_replace content [chr_cr; chr_lf] [chr_lf]) [chr_cr] [chr_lf].

(** An environment with both optional libraries: [doc.pdf] has two pages,
    [bad.pdf] cannot be opened by the PDF library and holds plain text,
    [notes.docx] has one paragraph and a table of one row, [empty.docx] has
    neither. *)
Definition office_world : World :=
  let base :=
    mk_world (Dir FNil [u "doc.pdf"; u "bad.pdf"; u "notes.docx"; u "empty.docx"])
      [("/repo/doc.pdf", {| fi_size := Some 4; fi_data := Some [x25; x50; x00; x46] |});
       ("/repo/bad.pdf", readable "not a pdf");
       ("/repo/notes.docx", {| fi_size := Some 4; fi_data := Some [x50; x4b; x03; x00] |});
       ("/repo/empty.docx", {| fi_size := Some 4; fi_data := Some [x50; x4b; x03; x00] |})]%string in
  {| str_lower := str_lower base;
     _HAS_PYMUPDF := true;
     _HAS_PYTHON_DOCX := true;
     docx_Document := fun p =>
       if bool_decide (p = u "/repo/notes.docx")
       then Some {| paragraphs := [u "Title"]; tables := [[[u "a"; u "b"]]] |}
       else if bool_decide (p = u "/repo/empty.docx")
       then Some {| paragraphs := []; tables := [] |}
       else None;
     fitz_open := fun p =>
       if bool_decide (p = u "/repo/doc.pdf")
       then Some [u "page one"; u "page two"] else None;
     os_path_getsize := os_path_getsize base;
     os_path_relpath := os_path_relpath base;
     os_path_abspath := os_path_abspath base;
     os_path_isdir := os_path_isdir base;
     open_rb_read := open_rb_read base;
     open_r_read := open_r_read base;
     os_walk := os_walk base;
     open_w := open_w base |}.

Definition office_args : Args :=
  {| include_hidden := false; max_file_size := 0; pdf := true; docx := true;
     ignore_dirs := DEFAULT_IGNORED_DIRS; only_ext := ∅; skip_ext := ∅ |}.

(** The chunk [process_file] returns for a path, if any. *)
Definition chunk_of (w : World) (root : str) (args : Args) (path : str)
  : option str :=
  match process_file w path root args with
  | Ok chunk => chunk
  | Raise _ => None
  end.


(** The lines of the header as they are meant to appear. *)
Definition header_lines (w : World) (now root : str) (args : Args) : list str :=
  [banner;
   u "Repo to Text Export";
   u "Root: " ++ os_path_abspath w root;
   u "Generated: (local time) " ++ now;
   u "Include hidden: " ++ str_of_bool (include_hidden args);
   u "Max file size (bytes): "
     ++ (if negb (max_file_size args =? 0)%Z
         then str_of_int (max_file_size args) else u "None");
   u "PDF extraction enabled: " ++ str_of_bool (pdf args && _HAS_PYMUPDF w);
   u "DOCX extraction enabled: "
     ++ str_of_bool (docx args && _HAS_PYTHON_DOCX w);
   u "Ignored dirs: " ++ str_join (u ", ") (sorted (elements (ignore_dirs args)));
   u "Only extensions: " ++ join_or_None (only_ext args);
   u "Skipped extensions: " ++ join_or_None (skip_ext args);
   banner].

(** A line that starts with a character other than a blank or a tab. *)
Definition solid (l : str) : Prop :=
  exists c l', l = c :: l' /\ is_ws c = false.

(** What [process_file] checks besides the size ceiling: the extension is
    not skipped, the lists let it pass, and a content is at hand, from an
    extractor or from the file itself (its head can be read and is text or
    of a preferred extension, and the file can be read). *)
Definition passes_other_filters (w : World) (path : str) (args : Args) : bool :=
  let ext := str_lower w (splitext path).2 in
  negb (bool_decide (ext ∈ ALWAYS_SKIP_EXTS)
        && negb (bool_decide (ext ∈ PDF_EXTS) && pdf args && _HAS_PYMUPDF w))
  && negb ((truthy (only_ext args) && negb (bool_decide (ext ∈ only_ext args)))
           || (truthy (skip_ext args) && bool_decide (ext ∈ skip_ext args)))
  && match
       match (if bool_decide (ext ∈ DOCX_EXTS) && docx args
              then docx_text w path else None) with
       | Some c => Some c
       | None => if bool_decide (ext ∈ PDF_EXTS) && pdf args
                 then pdf_text w path else None
       end
     with
     | Some _ => true
     | None =>
         match open_rb_read w path 4096 with
         | None => false
         | Some head =>
             negb (negb (bool_decide (ext ∈ PREFER_TEXT_EXTS))
                   && is_probably_binary head)
             && bool_decide (is_Some (open_r_read w path))
         end
     end.

(** The run does not read back its own output: whatever it has written,
    [process_file] answers on every enumerated path as it does in the file
    system at the start.  This is so when the output file is not among the
    enumerated paths. *)
Definition output_unread (env : Env) (ns : Namespace) : Prop :=
  let w := at_start env in
  let root := os_path_abspath w (ns_root ns) in
  let args := main_args w ns in
  forall o path,
    path ∈ iter_files w root (include_hidden args) (ignore_dirs args) ->
    process_file (seen_after env o) path root args
    = process_file w path root args.

(** The three lines [main] writes after the loop. *)
Definition summary_text (scanned included : Z) : str :=
  [chr_lf] ++ u "===== SUMMARY =====" ++ [chr_lf]
  ++ u "Files scanned: " ++ str_of_int scanned ++ [chr_lf]
  ++ u "Files included: " ++ str_of_int included ++ [chr_lf].


(** A tree with a file whose name is not valid UTF-8: [os.walk] reports the
    byte 0xFF of the name as U+DCFF. *)
Definition surrogate_world : World :=
  let base :=
    mk_world (Dir FNil [u "a.py"; 56575%N :: u ".py"; u "z.py"])
      [("/repo/a.py", readable "print(1)");
       ("/repo/z.py", readable "print(2)")]%string in
  let odd := u "/repo/" ++ 56575%N :: u ".py" in
  {| str_lower := str_lower base;
     _HAS_PYMUPDF := false;
     _HAS_PYTHON_DOCX := false;
     docx_Document := docx_Document base;
     fitz_open := fitz_open base;
     os_path_getsize := fun p =>
       if bool_decide (p = odd) then Some 2 else os_path_getsize base p;
     os_path_relpath := os_path_relpath base;
     os_path_abspath := os_path_abspath base;
     os_path_isdir := os_path_isdir base;
     open_rb_read := fun p n =>
       if bool_decide (p = odd) then Some (take n (bytes_of "ok"))
       else open_rb_read base p n;
     open_r_read := fun p =>
       if bool_decide (p = odd) then Some (bytes_of "ok")
       else open_r_read base p;
     os_walk := os_walk base;
     open_w := open_w base |}.

(** The bytes of the UTF-8 encoding of an ASCII text. *)
Definition ascii_bytes (s : str) : bytes := omap Byte.of_N s.

(** A run that writes into the tree it scans: [/repo] holds [a.txt], of
    9000 bytes, and the output file [out.txt], listed after it.  The output
    stream holds back what is written until its buffer of 8192 bytes is
    exceeded and passes everything on then: [out.txt] is empty while at
    most 8192 characters have been written, and holds the whole text
    written so far when [process_file] comes to it. *)
Definition selfread_world (written : str) : World :=
  let data :=
    if (8192 <? Z.of_nat (length written))%Z then ascii_bytes written else [] in
  mk_world (Dir FNil [u "a.txt"; u "out.txt"])
    [("/repo/a.txt",
      {| fi_size := Some 9000; fi_data := Some (repeat x78 (Z.to_nat 9000)) |});
     ("/repo/out.txt",
      {| fi_size := Some (Z.of_nat (length data)); fi_data := Some data |})]%string.

Definition selfread_env : Env :=
  {| at_start := selfread_world []; seen_after := selfread_world;
     device_takes := fun _ => true; stdout_error := fun _ => None |}.

Definition selfread_ns : Namespace :=
  {| ns_root := u "/repo"; ns_output := u "/repo/out.txt";
     ns_include_hidden := false; ns_no_default_ignores := false;
     ns_ignore_dir := []; ns_max_file_size := 0;
     ns_pdf := false; ns_docx := false;
     ns_only_ext := []; ns_skip_ext := [] |}.

(** The text of the output file of a run that returns, empty otherwise. *)
Definition text_of (r : res Outcome) : str :=
  match r with
  | Ok o => default [] (output_file o)
  | Raise _ => []
  end.

(** * Properties *)

(** ** Binary sniffer *)

Lemma byte_val_zero (b : byte) : byte_val b = 0 -> b = x00.
Proof. destruct b; vm_compute; intro H; solve [reflexivity | discriminate H]. Qed.

Lemma clean_byte_spec (b : byte) :
  ((32 <=? byte_val b) && (byte_val b <=? 126))
  || bool_decide (byte_val b ∈ text_whitelist) = negb (spec_suspicious b).
Proof. destruct b; vm_compute; reflexivity. Qed.

(** One turn of the loop, with the classification of the specification. *)
Lemma sniff_loop_cons (b : byte) (rest : bytes) (acc : Z) :
  sniff_loop (b :: rest) acc =
  if byte_val b =? 0 then None
  else sniff_loop rest (if spec_suspicious b then acc + 1 else acc).
Proof.
  cbn [sniff_loop]. cbv zeta.
  pose proof (clean_byte_spec b) as Hc.
  destruct (byte_val b =? 0); [reflexivity|].
  destruct ((32 <=? byte_val b) && (byte_val b <=? 126)),
    (bool_decide (byte_val b ∈ text_whitelist)),
    (spec_suspicious b),
    ((127 <=? byte_val b) && (byte_val b <=? 159));
    cbn in Hc; try discriminate Hc; reflexivity.
Qed.

Lemma sniff_loop_count (sample : bytes) (acc : Z) :
  x00 ∉ sample ->
  sniff_loop sample acc = Some (acc + spec_suspicious_count sample).
Proof.
  revert acc. induction sample as [|b rest IH]; intros acc Hz.
  - cbn. f_equal. unfold spec_suspicious_count. cbn. lia.
  - rewrite sniff_loop_cons.
    destruct (byte_val b =? 0) eqn:E.
    + apply Z.eqb_eq, byte_val_zero in E. subst b.
      exfalso. apply Hz. left.
    + rewrite IH by (intro Hin; apply Hz; right; exact Hin).
      f_equal. unfold spec_suspicious_count. cbn [List.filter].
      destruct (spec_suspicious b); cbn [length]; lia.
Qed.

Lemma ratio_gt_030_spec (a b : Z) :
  0 < b -> ratio_gt_030 a b = true <-> 3 * b < 10 * a.
Proof.
  intros Hb. destruct b as [|p|p]; try lia.
  unfold ratio_gt_030. rewrite negb_true_iff, <- not_true_iff_false, Qle_bool_iff.
  unfold Qle, Qdiv, Qmult, Qinv, inject_Z. cbn. lia.
Qed.

Lemma high_byte_suspicious (b : byte) :
  high_byte b = true -> spec_suspicious b = true.
Proof. destruct b; vm_compute; intro H; solve [reflexivity | discriminate H]. Qed.

Lemma high_count_le (sample : bytes) :
  high_count sample <= spec_suspicious_count sample.
Proof.
  unfold high_count, spec_suspicious_count.
  induction sample as [|b rest IH]; cbn [List.filter]; [lia|].
  pose proof (high_byte_suspicious b) as Hb.
  destruct (high_byte b); [rewrite Hb by reflexivity|];
    destruct (spec_suspicious b); cbn [length]; lia.
Qed.

Lemma is_probably_binary_ratio (sample : bytes) :
  sample <> [] -> x00 ∉ sample ->
  is_probably_binary sample = true <->
  3 * Z.of_nat (length sample) < 10 * spec_suspicious_count sample.
Proof.
  intros Hne Hz. unfold is_probably_binary.
  destruct sample as [|b rest]; [congruence|].
  rewrite bool_decide_eq_false_2 by exact Hz.
  rewrite sniff_loop_count by exact Hz.
  rewrite Z.max_r by (cbn [length]; lia).
  rewrite ratio_gt_030_spec by (cbn [length]; lia).
  rewrite Z.add_0_l. reflexivity.
Qed.

(** The binary64 evaluation of the ratio test gives the same verdict as the
    rational one for every count a head of at most 4096 bytes can have. *)
Lemma ratio_check_true : ratio_check 4096 = true.
Proof. vm_compute. reflexivity. Qed.

Lemma Z_from_lookup (count : nat) (i : Z) (k : nat) :
  (k < count)%nat -> Z_from count i !! k = Some (i + Z.of_nat k).
Proof.
  revert i k. induction count as [|c IH]; intros i k Hk; [lia|].
  destruct k as [|k]; cbn.
  - f_equal. lia.
  - rewrite IH by lia. f_equal. lia.
Qed.

Lemma float_table_lookup (m k : nat) :
  (k <= m)%nat ->
  float_table m !! k = Some (Z.of_nat k, float_of_Z (Z.of_nat k)).
Proof.
  intros Hk. unfold float_table.
  rewrite list_lookup_fmap, Z_from_lookup by lia. reflexivity.
Qed.

Lemma check_row_lookup thr fn count tbl k s fs :
  check_row thr fn count tbl = true -> (k < count)%nat ->
  tbl !! k = Some (s, fs) ->
  PrimFloat.ltb 0x1.3333333333333p-2%float (PrimFloat.div fs fn) = (thr <? s).
Proof.
  revert tbl k. induction count as [|c IH]; intros tbl k Hc Hk Hl; [lia|].
  destruct tbl as [|[s' fs'] tbl']; [discriminate Hl|].
  cbn in Hc. apply andb_true_iff in Hc as [Hhd Htl].
  destruct k as [|k].
  - cbn in Hl. injection Hl as -> ->. apply eqb_prop in Hhd. exact Hhd.
  - cbn in Hl. apply (IH tbl' k); [assumption | lia | assumption].
Qed.

Lemma ratio_check_sound (m : nat) (s n : Z) :
  ratio_check m = true ->
  0 <= s <= n -> 1 <= n <= Z.of_nat m ->
  ratio_gt_float s n = ratio_gt_030 s n.
Proof.
  intros H Hs Hn. unfold ratio_check in H.
  cbv zeta in H. rewrite forallb_forall in H.
  assert (Hin : In (n, float_of_Z n) (tl (float_table m))).
  { apply list_elem_of_In, list_elem_of_lookup. exists (Z.to_nat n - 1)%nat.
    rewrite lookup_tail.
    replace (S (Z.to_nat n - 1)) with (Z.to_nat n) by lia.
    rewrite float_table_lookup by lia. rewrite Z2Nat.id by lia. reflexivity. }
  specialize (H _ Hin). cbn beta iota in H.
  pose proof (check_row_lookup _ _ _ _ (Z.to_nat s) s (float_of_Z s) H) as Hrow.
  unfold ratio_gt_float. rewrite Hrow.
  - destruct (ratio_gt_030 s n) eqn:E.
    + apply ratio_gt_030_spec in E; [|lia]. apply Z.ltb_lt.
      apply Z.div_lt_upper_bound; lia.
    + apply Z.ltb_ge. apply Z.div_le_lower_bound; [lia|].
      destruct (Z.le_gt_cases (10 * s) (3 * n)) as [|G]; [assumption|].
      apply ratio_gt_030_spec in G; [congruence|lia].
  - lia.
  - rewrite float_table_lookup by lia. rewrite Z2Nat.id by lia. reflexivity.
Qed.

Lemma ratio_gt_float_agrees (s n : Z) :
  0 <= s <= n -> 1 <= n <= 4096 -> ratio_gt_float s n = ratio_gt_030 s n.
Proof.
  intros Hs Hn. apply (ratio_check_sound 4096 s n ratio_check_true Hs).
  assert (E : Z.of_nat 4096 = 4096) by (vm_compute; reflexivity).
  rewrite E. exact Hn.
Qed.

(** C4: a sample that contains a zero byte is classified binary, whatever
    its other bytes are. *)
Theorem zero_byte_is_binary (sample : bytes) :
  x00 ∈ sample -> is_probably_binary sample = true.
Proof.
  intros Hin. unfold is_probably_binary.
  destruct sample as [|b rest].
  - inversion Hin.
  - rewrite bool_decide_eq_true_2 by exact Hin. reflexivity.
Qed.

Lemma zero_byte_is_binary_witness :
  x00 ∈ [x41; x00; x42] /\ is_probably_binary [x41; x00; x42] = true.
Proof.
  assert (H : x00 ∈ [x41; x00; x42]) by (right; left).
  split; [exact H | exact (zero_byte_is_binary [x41; x00; x42] H)].
Defined.

(** C5: on a non-empty sample without a zero byte the verdict is binary
    exactly when the suspicious bytes (not printable ASCII, not tab, newline,
    carriage return, form feed or backspace) are strictly more than 30% of
    the sample; in particular a sample with more than 30% of its bytes in
    0x7F-0xFF is binary. *)
Theorem suspicious_ratio_decides (sample : bytes) :
  sample <> [] -> x00 ∉ sample ->
  (is_probably_binary sample = true <->
   (inject_Z (spec_suspicious_count sample)
    > (30 # 100) * inject_Z (Z.of_nat (length sample)))%Q)
  /\ ((inject_Z (high_count sample)
       > (30 # 100) * inject_Z (Z.of_nat (length sample)))%Q ->
      is_probably_binary sample = true).
Proof.
  intros Hne Hz.
  assert (Hq : forall c : Z,
             (inject_Z c > (30 # 100) * inject_Z (Z.of_nat (length sample)))%Q
             <-> 3 * Z.of_nat (length sample) < 10 * c).
  { intros c. unfold Qlt, Qmult, inject_Z. cbn. lia. }
  split.
  - rewrite Hq. apply is_probably_binary_ratio; assumption.
  - intros Hh. apply Hq in Hh.
    apply is_probably_binary_ratio; [assumption..|].
    pose proof (high_count_le sample). lia.
Qed.

Lemma suspicious_ratio_decides_witness :
  (is_probably_binary [x80; xff; x41; x42; x09] = true <->
   (inject_Z (spec_suspicious_count [x80; xff; x41; x42; x09])
    > (30 # 100) * inject_Z (Z.of_nat (length [x80; xff; x41; x42; x09])))%Q)
  /\ ((inject_Z (high_count [x80; xff; x41; x42; x09])
       > (30 # 100) * inject_Z (Z.of_nat (length [x80; xff; x41; x42; x09])))%Q ->
      is_probably_binary [x80; xff; x41; x42; x09] = true).
Proof.
  apply (suspicious_ratio_decides [x80; xff; x41; x42; x09]).
  - discriminate.
  - intros H. apply list_elem_of_In in H. vm_compute in H. intuition discriminate.
Defined.

(** ** Reading text *)

Lemma open_read_text_unreadable w path enc errors :
  open_r_read w path = None -> open_read_text w path enc errors = Raise OSError.
Proof. intros H. unfold open_read_text. rewrite H. reflexivity. Qed.

Lemma open_read_text_latin1 w path raw :
  open_r_read w path = Some raw ->
  open_read_text w path Latin1 Strict
  = Ok (translate_newlines (decode_latin1 raw)).
Proof. intros H. unfold open_read_text. rewrite H. reflexivity. Qed.

Lemma read_text_loop_unreadable w path encodings :
  open_r_read w path = None -> read_text_loop w path encodings = None.
Proof.
  intros H. induction encodings as [|enc rest IH]; [reflexivity|].
  cbn [read_text_loop]. rewrite open_read_text_unreadable by exact H. exact IH.
Qed.

(** A readable file leaves the loop at latin-1 at the latest. *)
Lemma read_text_loop_readable w path raw :
  open_r_read w path = Some raw ->
  exists s, read_text_loop w path [Utf8; Utf8Sig; Latin1] = Some s
            /\ read_text_loop w path default_encodings = Some s.
Proof.
  intros H. unfold default_encodings. cbn [read_text_loop].
  rewrite (open_read_text_latin1 _ _ _ H).
  destruct (open_read_text w path Utf8 Strict); [eauto|].
  destruct (open_read_text w path Utf8Sig Strict); eauto.
Qed.

Lemma read_text_file_total w path encodings :
  exists r, read_text_file w path encodings = Ok r.
Proof.
  unfold read_text_file.
  destruct (read_text_loop w path encodings); [eauto|].
  destruct (open_read_text w path Utf8 Replace); cbn; eauto.
Qed.

(** In [Replace] mode the UTF-8 decoder always produces a string. *)
Lemma decode_utf8_loop_replace fuel raw :
  exists s, decode_utf8_loop fuel Replace raw = Some s.
Proof.
  revert raw. induction fuel as [|fuel IH]; intros raw; cbn; [eauto|].
  destruct (utf8_step raw) as [|cp k|k]; [eauto| |];
    destruct (IH (drop k raw)) as [s ->]; cbn; eauto.
Qed.

Lemma read_text_file_readable w path raw :
  open_r_read w path = Some raw ->
  exists s, read_text_loop w path [Utf8; Utf8Sig; Latin1] = Some s
            /\ read_text_file w path default_encodings = Ok (Some s).
Proof.
  intros Hr. destruct (read_text_loop_readable _ _ _ Hr) as (s & H3 & Hs).
  exists s. split; [exact H3|].
  unfold read_text_file. rewrite Hs. reflexivity.
Qed.

Lemma read_text_file_unreadable w path :
  open_r_read w path = None ->
  read_text_file w path default_encodings = Ok None.
Proof.
  intros Hr. unfold read_text_file.
  rewrite read_text_loop_unreadable by exact Hr.
  rewrite (open_read_text_unreadable _ _ Utf8 Replace Hr). reflexivity.
Qed.

(** C10: [read_text_file] never raises; it returns [None] exactly when the
    file cannot be opened and read, in which case every attempt raises an
    OS-level error; a readable file is returned by the loop over the
    encodings, at latin-1 at the latest, so the decoding with placeholders
    is not reached for it. *)
Theorem read_text_file_none_only_unreadable (w : World) (path : str) :
  (exists r, read_text_file w path default_encodings = Ok r)
  /\ (read_text_file w path default_encodings = Ok None <->
      forall enc errors, open_read_text w path enc errors = Raise OSError)
  /\ (forall raw, open_r_read w path = Some raw ->
      exists s, read_text_loop w path [Utf8; Utf8Sig; Latin1] = Some s
                /\ read_text_file w path default_encodings = Ok (Some s)).
Proof.
  split; [apply read_text_file_total|]. split.
  - split.
    + intros Hnone enc errors.
      destruct (open_r_read w path) as [raw|] eqn:Hr.
      * destruct (read_text_file_readable _ _ _ Hr) as (s & _ & Hs).
        rewrite Hs in Hnone. discriminate.
      * apply open_read_text_unreadable. exact Hr.
    + intros Hall.
      destruct (open_r_read w path) as [raw|] eqn:Hr.
      * specialize (Hall Latin1 Strict).
        rewrite (open_read_text_latin1 _ _ _ Hr) in Hall. discriminate.
      * apply read_text_file_unreadable. exact Hr.
  - apply read_text_file_readable.
Qed.

Lemma read_text_file_none_only_unreadable_witness :
  open_r_read demo_world (u "/repo/a.py") = Some (bytes_of "print(1)")
  /\ exists s,
      read_text_loop demo_world (u "/repo/a.py") [Utf8; Utf8Sig; Latin1] = Some s
      /\ read_text_file demo_world (u "/repo/a.py") default_encodings = Ok (Some s).
Proof.
  assert (H : open_r_read demo_world (u "/repo/a.py") = Some (bytes_of "print(1)"))
    by (vm_compute; reflexivity).
  split; [exact H|].
  exact (proj2 (proj2 (read_text_file_none_only_unreadable demo_world (u "/repo/a.py")))
           _ H).
Defined.

(** ** Core processing *)

Lemma extract_docx_text_total w path : exists r, extract_docx_text w path = Ok r.
Proof.
  unfold extract_docx_text. destruct (_HAS_PYTHON_DOCX w); cbn; [|eauto].
  destruct (docx_Document w path); cbn; eauto.
Qed.

Lemma extract_pdf_text_total w path : exists r, extract_pdf_text w path = Ok r.
Proof.
  unfold extract_pdf_text. destruct (_HAS_PYMUPDF w); cbn; [|eauto].
  destruct (fitz_open w path); cbn; eauto.
Qed.

Lemma safe_relpath_total w path start : exists r, safe_relpath w path start = Ok r.
Proof.
  unfold safe_relpath. destruct (os_path_relpath w path start); cbn; eauto.
Qed.

(** No exception leaves [process_file]. *)
Lemma process_file_total w path root args :
  exists r, process_file w path root args = Ok r.
Proof.
  unfold process_file.
  set (ext := str_lower w (splitext path).2).
  destruct (bool_decide (ext ∈ ALWAYS_SKIP_EXTS) && _); [eauto|].
  destruct (_ || _); [eauto|].
  destruct (try_except (os_call (os_path_getsize w path)) (Ok (-1))) as [size|e] eqn:Hsz.
  2:{ destruct (os_path_getsize w path); discriminate Hsz. }
  cbn [bind].
  destruct (negb _ && _); [eauto|].
  destruct (safe_relpath_total w path root) as [rel ->]. cbn [bind].
  destruct (extract_docx_text_total w path) as [cd Hd].
  destruct (extract_pdf_text_total w path) as [cp Hp].
  destruct (read_text_file_total w path default_encodings) as [ct Ht].
  rewrite Hd, Hp, Ht.
  assert (Htail : forall content : option str,
    exists r,
      match content with
      | Some _ => Ok (render w rel size ext content)
      | None =>
          match os_call (open_rb_read w path 4096) with
          | Ok head =>
              if negb (bool_decide (ext ∈ PREFER_TEXT_EXTS))
                 && is_probably_binary head
              then Ok None
              else (content1 <- Ok ct;; Ok (render w rel size ext content1))
          | Raise _ => Ok None
          end
      end = Ok r).
  { intros [c|]; [eauto|].
    destruct (open_rb_read w path 4096) as [head|]; cbn [os_call]; [|eauto].
    destruct (negb _ && _); cbn [bind]; eauto. }
  destruct (bool_decide (ext ∈ DOCX_EXTS) && docx args); cbn [bind].
  - destruct cd as [c|]; cbn [bind]; [apply (Htail (Some c))|].
    destruct (bool_decide (ext ∈ PDF_EXTS) && pdf args); cbn [bind];
      [apply (Htail cp) | apply (Htail None)].
  - destruct (bool_decide (ext ∈ PDF_EXTS) && pdf args); cbn [bind];
      [apply (Htail cp) | apply (Htail None)].
Qed.

Lemma truthy_elem (s : gset str) (x : str) : x ∈ s -> truthy s = true.
Proof.
  intros Hx. unfold truthy. case_bool_decide as He; [|reflexivity].
  subst s. destruct (not_elem_of_empty x Hx).
Qed.

(** C2: an extension that is in the allow-list and in the deny-list is
    excluded. *)
Theorem deny_list_wins (w : World) (path root : str) (args : Args) :
  str_lower w (splitext path).2 ∈ only_ext args ->
  str_lower w (splitext path).2 ∈ skip_ext args ->
  process_file w path root args = Ok None.
Proof.
  intros Honly Hskip. unfold process_file.
  destruct (bool_decide (_ ∈ ALWAYS_SKIP_EXTS) && _); [reflexivity|].
  rewrite (truthy_elem _ _ Hskip), (bool_decide_eq_true_2 _ Hskip).
  rewrite orb_true_r. reflexivity.
Qed.

Lemma deny_list_wins_witness :
  process_file demo_world (u "/repo/a.py") (u "/repo") both_lists_args = Ok None.
Proof.
  apply (deny_list_wins demo_world (u "/repo/a.py") (u "/repo") both_lists_args);
    apply (bool_decide_unpack _); vm_compute; exact I.
Defined.

Lemma prefer_text_plain (ext : str) :
  ext ∈ PREFER_TEXT_EXTS ->
  (ext ∉ ALWAYS_SKIP_EXTS) /\ (ext ∉ DOCX_EXTS) /\ (ext ∉ PDF_EXTS).
Proof.
  unfold PREFER_TEXT_EXTS. rewrite elem_of_list_to_set, list_elem_of_fmap.
  intros (s & -> & Hin).
  assert (Hall : Forall (fun s => (u s ∉ ALWAYS_SKIP_EXTS) /\ (u s ∉ DOCX_EXTS)
                                  /\ (u s ∉ PDF_EXTS)) PREFER_TEXT_EXTS_list).
  { apply (bool_decide_unpack _). vm_compute. exact I. }
  rewrite Forall_forall in Hall. apply Hall. exact Hin.
Qed.

(** C1, as the code has it: a file with a prefer-text extension that is
    within the size ceiling and passes the allow-list and the deny-list is
    included, provided its head and its text can be read. *)
Theorem prefer_text_readable_included (w : World) (path root : str)
  (args : Args) (head raw : bytes) :
  str_lower w (splitext path).2 ∈ PREFER_TEXT_EXTS ->
  (max_file_size args = 0
   \/ default (-1) (os_path_getsize w path) <= max_file_size args) ->
  (only_ext args = ∅ \/ str_lower w (splitext path).2 ∈ only_ext args) ->
  str_lower w (splitext path).2 ∉ skip_ext args ->
  open_rb_read w path 4096 = Some head ->
  open_r_read w path = Some raw ->
  exists chunk, process_file w path root args = Ok (Some chunk).
Proof.
  intros Hext Hsize Honly Hskip Hhead Hraw.
  destruct (prefer_text_plain _ Hext) as (Hns & Hnd & Hnp).
  unfold process_file.
  rewrite (bool_decide_eq_false_2 _ Hns), (bool_decide_eq_false_2 _ Hnd),
    (bool_decide_eq_false_2 _ Hnp), (bool_decide_eq_false_2 _ Hskip),
    (bool_decide_eq_true_2 _ Hext).
  cbn [andb negb]. rewrite andb_false_r, orb_false_r.
  replace (truthy (only_ext args) && _) with false.
  2:{ symmetry. destruct Honly as [-> | Hin].
      - unfold truthy. rewrite bool_decide_eq_true_2 by reflexivity. reflexivity.
      - rewrite (bool_decide_eq_true_2 _ Hin). apply andb_false_r. }
  replace (try_except (os_call (os_path_getsize w path)) (Ok (-1)))
    with (Ok (A := Z) (default (-1) (os_path_getsize w path)))
    by (destruct (os_path_getsize w path); reflexivity).
  cbn [bind].
  replace (negb (max_file_size args =? 0) && _) with false.
  2:{ symmetry. destruct Hsize as [-> | Hle]; [reflexivity|].
      replace (_ >? _) with false; [apply andb_false_r|].
      symmetry. rewrite Z.gtb_ltb. apply Z.ltb_ge. exact Hle. }
  destruct (safe_relpath_total w path root) as [rel ->]. cbn [bind].
  rewrite Hhead. cbn [os_call].
  destruct (read_text_file_readable w path raw Hraw) as (s & _ & ->).
  cbn [bind render].
  destruct (fence_for_ext w _) as [open_fence close_fence]. eauto.
Qed.

Lemma prefer_text_readable_included_witness :
  exists chunk,
    process_file demo_world (u "/repo/a.py") (u "/repo") demo_args
    = Ok (Some chunk).
Proof.
  apply (prefer_text_readable_included demo_world (u "/repo/a.py") (u "/repo")
           demo_args (bytes_of "print(1)") (bytes_of "print(1)")).
  - apply (bool_decide_unpack _). vm_compute. exact I.
  - left. reflexivity.
  - left. apply (bool_decide_unpack _). vm_compute. exact I.
  - apply (bool_decide_unpack _). vm_compute. exact I.
  - vm_compute. reflexivity.
  - vm_compute. reflexivity.
Defined.

(** C1 as stated fails: [a.py] of [locked_world] has a prefer-text
    extension, is within every ceiling and is excluded by no list, and is
    not included, because it cannot be opened. *)
Lemma prefer_text_unreadable_excluded :
  ~ (forall (w : World) (path root : str) (args : Args),
       str_lower w (splitext path).2 ∈ PREFER_TEXT_EXTS ->
       (max_file_size args = 0
        \/ default (-1) (os_path_getsize w path) <= max_file_size args) ->
       (only_ext args = ∅ \/ str_lower w (splitext path).2 ∈ only_ext args) ->
       str_lower w (splitext path).2 ∉ skip_ext args ->
       exists chunk, process_file w path root args = Ok (Some chunk)).
Proof.
  intros H.
  destruct (H locked_world (u "/repo/a.py") (u "/repo") demo_args) as [chunk Hc].
  - apply (bool_decide_unpack _). vm_compute. exact I.
  - left. reflexivity.
  - left. apply (bool_decide_unpack _). vm_compute. exact I.
  - apply (bool_decide_unpack _). vm_compute. exact I.
  - vm_compute in Hc. discriminate Hc.
Qed.

(** ** Path enumerator *)

Lemma keep_dir_not_ignored (ih : bool) (ign : gset str) (d : str) :
  keep_dir ih ign d = true -> d ∉ ign.
Proof.
  unfold keep_dir. destruct (negb ih && startswith d (u ".")); [discriminate|].
  case_bool_decide as Hd; [discriminate|]. intros _. exact Hd.
Qed.

Lemma keep_dir_ignored (ih : bool) (ign : gset str) (d : str) :
  d ∈ ign -> keep_dir ih ign d = false.
Proof.
  intros Hd. unfold keep_dir. destruct (negb ih && startswith d (u ".")); [reflexivity|].
  rewrite (bool_decide_eq_true_2 _ Hd). reflexivity.
Qed.

(** Every yielded path is the path of a file entry of the tree, reached
    through directories that are not in the ignore set. *)
Lemma iter_files_at_located (ih : bool) (ign : gset str) (t : node) :
  forall (dirpath p : str),
    p ∈ iter_files_at ih ign dirpath t ->
    exists ds f, located t ds f
                 /\ p = path_join (foldl path_join dirpath ds) f
                 /\ Forall (fun d => d ∉ ign) ds.
Proof.
  induction t as [dirnames IHf filenames| | | |d n IHn rest IHrest]
    using node_forest_ind
    with (P0 := fun fr => forall (dirpath p : str),
      p ∈ iter_files_in ih ign dirpath fr ->
      exists d sub ds f, (d, sub) ∈ entries fr /\ (d ∉ ign)
                   /\ located sub ds f
                   /\ p = path_join (foldl path_join (path_join dirpath d) ds) f
                   /\ Forall (fun d => d ∉ ign) ds);
    intros dirpath p Hp; cbn [iter_files_at iter_files_in] in Hp.
  - apply elem_of_app in Hp as [Hp|Hp].
    + apply list_elem_of_fmap in Hp as (f & -> & Hf).
      apply list_elem_of_In, filter_In in Hf as [Hf _]. apply list_elem_of_In in Hf.
      exists [], f. split; [constructor; exact Hf|]. split; [reflexivity|constructor].
    + destruct (IHf _ _ Hp) as (d & sub & ds & f & Hin & Hd & Hloc & -> & Hall).
      exists (d :: ds), f. split; [econstructor; eassumption|].
      split; [reflexivity|]. constructor; assumption.
  - inversion Hp.
  - inversion Hp.
  - inversion Hp.
  - apply elem_of_app in Hp as [Hp|Hp].
    + destruct (keep_dir ih ign d) eqn:Hk; [|inversion Hp].
      destruct (IHn _ _ Hp) as (ds & f & Hloc & -> & Hall).
      exists d, n, ds, f. split; [left|].
      split; [exact (keep_dir_not_ignored _ _ _ Hk)|]. auto.
    + destruct (IHrest _ _ Hp) as (d' & sub & ds & f & Hin & Hrest).
      exists d', sub, ds, f. split; [right; exact Hin|exact Hrest].
Qed.

(** What lies inside an ignored directory has no part in the enumeration. *)
Lemma iter_files_at_agree (ih : bool) (ign : gset str) (t t' : node) :
  agree_outside ign t t' ->
  forall dirpath, iter_files_at ih ign dirpath t = iter_files_at ih ign dirpath t'.
Proof.
  intros H.
  induction H using agree_outside_mut
    with (P0 := fun fr fr' => forall dirpath,
      iter_files_in ih ign dirpath fr = iter_files_in ih ign dirpath fr');
    intros dirpath; cbn [iter_files_at iter_files_in]; try reflexivity.
  - f_equal. apply IHagree_outside.
  - rewrite (keep_dir_ignored ih ign d) by assumption. f_equal. auto.
  - rewrite IHagree_outside, IHagree_outside0. reflexivity.
Qed.

(** C7: the enumerator never goes into a directory whose name is in the
    ignore set: every path it yields belongs to a file reached through
    directories outside the set, and the contents of the ignored
    directories change neither the paths yielded nor their number. *)
Theorem ignored_dirs_never_entered (w : World) (root : str) (ih : bool)
  (ign : gset str) :
  (forall p, p ∈ iter_files w root ih ign ->
     exists ds f, located (os_walk w root) ds f
                  /\ p = path_join (foldl path_join root ds) f
                  /\ Forall (fun d => d ∉ ign) ds)
  /\ (forall w', agree_outside ign (os_walk w root) (os_walk w' root) ->
        iter_files w' root ih ign = iter_files w root ih ign).
Proof.
  split.
  - intros p Hp. exact (iter_files_at_located ih ign _ _ _ Hp).
  - intros w' H. unfold iter_files. symmetry.
    apply iter_files_at_agree. exact H.
Qed.

Lemma ignored_dirs_never_entered_witness :
  iter_files demo_world' (u "/repo") false DEFAULT_IGNORED_DIRS
  = iter_files demo_world (u "/repo") false DEFAULT_IGNORED_DIRS.
Proof.
  apply (proj2 (ignored_dirs_never_entered demo_world (u "/repo") false
                  DEFAULT_IGNORED_DIRS)).
  change (os_walk demo_world (u "/repo")) with demo_tree.
  change (os_walk demo_world' (u "/repo")) with demo_tree'.
  apply agree_dir. apply agree_ignored.
  - apply (bool_decide_unpack _). vm_compute. exact I.
  - apply agree_kept; [apply agree_dir|]; apply agree_nil.
Defined.

(** ** Header *)

Lemma split_lines_nonempty (s : str) : split_lines s <> [].
Proof.
  induction s as [|c s IH]; cbn [split_lines]; [discriminate|].
  destruct (c =? chr_lf)%N; [discriminate|].
  destruct (split_lines s); discriminate.
Qed.

(** The lines of a text and of what is appended to it. *)
Lemma split_lines_app (a : str) :
  exists LA la,
    split_lines a = LA ++ [la]
    /\ forall b l ls, split_lines b = l :: ls ->
         split_lines (a ++ b) = LA ++ [la ++ l] ++ ls.
Proof.
  induction a as [|c a (LA & la & Ha & Hab)].
  - exists [], []. split; [reflexivity|]. intros b l ls Hb. exact Hb.
  - cbn [split_lines app]. destruct (c =? chr_lf)%N.
    + exists ([] :: LA), la. split; [rewrite Ha; reflexivity|].
      intros b l ls Hb. rewrite (Hab _ _ _ Hb). reflexivity.
    + destruct LA as [|x LA].
      * exists [], (c :: la). split; [rewrite Ha; reflexivity|].
        intros b l ls Hb. rewrite (Hab _ _ _ Hb). reflexivity.
      * exists ((c :: x) :: LA), la. split; [rewrite Ha; reflexivity|].
        intros b l ls Hb. rewrite (Hab _ _ _ Hb). reflexivity.
Qed.

Lemma split_lines_no_lf (x b : str) :
  chr_lf ∉ x -> split_lines (x ++ chr_lf :: b) = x :: split_lines b.
Proof.
  induction x as [|c x IH]; intros Hx; [reflexivity|].
  cbn [split_lines app].
  destruct (c =? chr_lf)%N eqn:E.
  - apply N.eqb_eq in E. subst c. exfalso. apply Hx. left.
  - rewrite IH by (intros H; apply Hx; right; exact H). reflexivity.
Qed.

(** A line that has a character other than a blank or a tab keeps its
    indent, and stays non-blank, whatever is appended to it. *)
Lemma after_ws_app (g x : str) :
  after_ws g <> [] ->
  forallb is_ws (g ++ x) = false
  /\ leading_ws (g ++ x) = leading_ws g
  /\ after_ws (g ++ x) <> [].
Proof.
  induction g as [|c g IH]; intros Hg; [contradiction|].
  cbn [after_ws leading_ws forallb app] in *.
  destruct (is_ws c); cbn [andb].
  - destruct (IH Hg) as (H1 & H2 & H3). rewrite H2. auto.
  - split; [reflexivity|]. split; [reflexivity|]. discriminate.
Qed.

Lemma startswith_ws_app (g x m : str) :
  after_ws g <> [] -> Forall (fun c => is_ws c = true) m ->
  startswith (g ++ x) m = startswith g m.
Proof.
  revert m. induction g as [|c g IH]; intros m Hg Hm; [contradiction|].
  destruct m as [|d m]; [reflexivity|].
  cbn [startswith app]. cbn [after_ws] in Hg.
  inversion Hm as [|? ? Hd Hm']; subst.
  destruct (d =? c)%N eqn:E; [|reflexivity].
  apply N.eqb_eq in E. subst d. rewrite Hd in Hg.
  cbn [andb]. apply IH; assumption.
Qed.

Lemma startswith_length (s p : str) :
  startswith s p = true -> (length p <= length s)%nat.
Proof.
  revert s. induction p as [|c p IH]; intros s H; cbn [length]; [lia|].
  destruct s as [|d s]; [discriminate H|].
  cbn [startswith] in H. apply andb_true_iff in H as [_ H].
  specialize (IH _ H). cbn [length]. lia.
Qed.

Lemma leading_ws_is_ws (l : str) : Forall (fun c => is_ws c = true) (leading_ws l).
Proof.
  induction l as [|c l IH]; cbn [leading_ws]; [constructor|].
  destruct (is_ws c) eqn:E; constructor; assumption.
Qed.

Lemma cut_at_mismatch_is_ws (m i : str) :
  Forall (fun c => is_ws c = true) m ->
  Forall (fun c => is_ws c = true) (cut_at_mismatch m i).
Proof.
  revert i. induction m as [|x m IH]; intros i Hm; [destruct i; constructor|].
  inversion Hm; subst. destruct i as [|y i]; cbn [cut_at_mismatch]; [assumption|].
  destruct (x =? y)%N; constructor; auto.
Qed.

Lemma margin_fold_is_ws (indents : list str) (m : option str) :
  Forall (Forall (fun c => is_ws c = true)) indents ->
  ws_margin m -> ws_margin (fold_left margin_step indents m).
Proof.
  revert m. induction indents as [|i indents IH]; intros m Hi Hm; [exact Hm|].
  inversion Hi; subst. cbn [fold_left]. apply IH; [assumption|].
  destruct m as [m|]; cbn [margin_step ws_margin] in *; [|assumption].
  destruct (startswith i m); [assumption|].
  destruct (startswith m i); [assumption|].
  apply cut_at_mismatch_is_ws. assumption.
Qed.

Lemma str_join_cons (sep x : str) (l : list str) :
  l <> [] -> str_join sep (x :: l) = x ++ sep ++ str_join sep l.
Proof. destruct l; [contradiction|reflexivity]. Qed.

Lemma str_join_middle (sep : str) (X : list str) (m y : str) (Y : list str) :
  str_join sep (X ++ [m] ++ y :: Y)
  = concat ((fun x => x ++ sep) <$> X) ++ m ++ sep ++ str_join sep (y :: Y).
Proof.
  induction X as [|x X IH].
  - cbn [app fmap list_fmap concat]. apply str_join_cons. discriminate.
  - cbn [app fmap list_fmap concat].
    rewrite str_join_cons by (destruct X; discriminate).
    cbn [app] in IH. rewrite IH, <- !app_assoc. reflexivity.
Qed.

Lemma strip_margin_ws_app (g x m : str) :
  after_ws g <> [] -> Forall (fun c => is_ws c = true) m ->
  strip_margin m (g ++ x) = strip_margin m g ++ x.
Proof.
  intros Hg Hm. unfold strip_margin.
  rewrite (startswith_ws_app g x m Hg Hm).
  destruct (startswith g m) eqn:E; [|reflexivity].
  apply startswith_length in E. rewrite drop_app_le by exact E. reflexivity.
Qed.

Lemma startswith_nil (s : str) : startswith s [] = true.
Proof. destruct s; reflexivity. Qed.

(** Removing a margin of blanks and tabs leaves the text of the line. *)
Lemma strip_margin_keeps_text (g m : str) :
  Forall (fun c => is_ws c = true) m ->
  exists y, strip_margin m g = y ++ after_ws g.
Proof.
  intros Hm. unfold strip_margin.
  destruct (startswith g m) eqn:E.
  - revert m Hm E. induction g as [|c g IH]; intros m Hm E.
    + exists []. destruct m; reflexivity.
    + destruct m as [|d m].
      * cbn [length drop after_ws]. destruct (is_ws c) eqn:Ec.
        -- destruct (IH [] (Forall_nil_2 _)) as [y Hy]; [destruct g; reflexivity|].
           cbn [length drop] in Hy. exists (c :: y). cbn [app]. f_equal. exact Hy.
        -- exists []. reflexivity.
      * cbn [startswith] in E. apply andb_true_iff in E as [Edc E].
        apply N.eqb_eq in Edc. subst d. inversion Hm as [|? ? Hc Hm']; subst.
        cbn [length drop after_ws]. rewrite Hc. apply IH; assumption.
  - clear E. induction g as [|c g [y Hy]]; [exists []; reflexivity|].
    cbn [after_ws]. destruct (is_ws c).
    + exists (c :: y). cbn [app]. f_equal. exact Hy.
    + exists []. reflexivity.
Qed.

Lemma indents_of_app (X Y : list str) :
  indents_of (X ++ Y) = indents_of X ++ indents_of Y.
Proof. unfold indents_of. rewrite List.filter_app, fmap_app. reflexivity. Qed.

Lemma indents_of_is_ws (X : list str) :
  Forall (Forall (fun c => is_ws c = true)) (indents_of X).
Proof.
  unfold indents_of. apply Forall_fmap, Forall_forall. intros l _.
  apply leading_ws_is_ws.
Qed.

(** The lines of the dedented text around a line [g ++ x] whose head [g]
    has a character other than a blank or a tab: only that line depends on
    [x], and it keeps the text of [g] and [x]. *)
Lemma dedent_lines_middle (L1 L2 : list str) (g : str) :
  after_ws g <> [] ->
  exists X Y y, length Y = length L2 /\
    forall x, dedent_lines (L1 ++ [g ++ x] ++ L2)
              = X ++ [y ++ after_ws g ++ x] ++ Y.
Proof.
  intros Hg.
  assert (Hnorm : forall x, blank_to_empty (g ++ x) = g ++ x).
  { intros x. unfold blank_to_empty.
    rewrite (proj1 (after_ws_app g x Hg)). reflexivity. }
  assert (Hind : forall x,
    indents_of (blank_to_empty <$> L1 ++ [g ++ x] ++ L2)
    = indents_of (blank_to_empty <$> L1) ++ [leading_ws g]
      ++ indents_of (blank_to_empty <$> L2)).
  { intros x. rewrite !fmap_app, !indents_of_app. f_equal. f_equal.
    cbn [fmap list_fmap]. rewrite Hnorm. unfold indents_of. cbn [List.filter].
    destruct (after_ws_app g x Hg) as (_ & Hl & Ha).
    rewrite bool_decide_eq_false_2 by exact Ha. cbn [negb fmap list_fmap].
    rewrite Hl. reflexivity. }
  set (margin := fold_left margin_step
         (indents_of (blank_to_empty <$> L1) ++ [leading_ws g]
          ++ indents_of (blank_to_empty <$> L2)) None).
  assert (Hws : ws_margin margin).
  { apply margin_fold_is_ws; [|exact I].
    rewrite <- (Hind []). apply indents_of_is_ws. }
  destruct margin as [[|c m]|] eqn:Hm.
  - exists (blank_to_empty <$> L1), (blank_to_empty <$> L2).
    destruct (strip_margin_keeps_text g [] (Forall_nil_2 _)) as [y Hy].
    exists y. split; [apply length_fmap|]. intros x.
    unfold dedent_lines. cbv zeta. rewrite Hind. fold margin. rewrite Hm.
    rewrite !fmap_app. cbn [fmap list_fmap]. rewrite Hnorm.
    unfold strip_margin in Hy. rewrite startswith_nil in Hy.
    cbn [length drop] in Hy.
    rewrite Hy at 1. rewrite <- app_assoc. reflexivity.
  - exists (strip_margin (c :: m) <$> (blank_to_empty <$> L1)),
      (strip_margin (c :: m) <$> (blank_to_empty <$> L2)).
    destruct (strip_margin_keeps_text g (c :: m) Hws) as [y Hy].
    exists y. split; [rewrite !length_fmap; reflexivity|]. intros x.
    unfold dedent_lines. cbv zeta. rewrite Hind. fold margin. rewrite Hm.
    rewrite !fmap_app. cbn [fmap list_fmap]. rewrite Hnorm.
    rewrite (strip_margin_ws_app g x (c :: m) Hg Hws), Hy, <- app_assoc.
    reflexivity.
  - exists (blank_to_empty <$> L1), (blank_to_empty <$> L2).
    destruct (strip_margin_keeps_text g [] (Forall_nil_2 _)) as [y Hy].
    exists y. split; [apply length_fmap|]. intros x.
    unfold dedent_lines. cbv zeta. rewrite Hind. fold margin. rewrite Hm.
    rewrite !fmap_app. cbn [fmap list_fmap]. rewrite Hnorm.
    unfold strip_margin in Hy. rewrite startswith_nil in Hy.
    cbn [length drop] in Hy.
    rewrite Hy at 1. rewrite <- app_assoc. reflexivity.
Qed.

(** Dedenting a text in which [x] follows, on one line, a head [g] that has
    a character other than a blank or a tab: the result depends on [x] only
    where [x] stands. *)
Lemma dedent_middle (a g b : str) :
  after_ws g <> [] -> chr_lf ∉ g ->
  exists pre post,
    forall x, chr_lf ∉ x ->
      dedent (a ++ chr_lf :: g ++ x ++ chr_lf :: b)
      = pre ++ after_ws g ++ x ++ chr_lf :: post.
Proof.
  intros Hg Hlf.
  destruct (split_lines_app a) as (LA & la & Ha & Hab).
  destruct (split_lines b) as [|l2 L2] eqn:Hb; [destruct (split_lines_nonempty _ Hb)|].
  destruct (dedent_lines_middle (LA ++ [la]) (l2 :: L2) g Hg)
    as (X & Y & y & HY & Hd).
  destruct Y as [|y2 Y]; [discriminate HY|].
  exists (concat ((fun x => x ++ [chr_lf]) <$> X) ++ y), (str_join [chr_lf] (y2 :: Y)).
  intros x Hx. unfold dedent.
  assert (Hsplit : split_lines (a ++ chr_lf :: g ++ x ++ chr_lf :: b)
                   = (LA ++ [la]) ++ [g ++ x] ++ l2 :: L2).
  { rewrite (Hab (chr_lf :: g ++ x ++ chr_lf :: b) [] ((g ++ x) :: l2 :: L2)).
    - rewrite app_nil_r, <- app_assoc. reflexivity.
    - cbn [split_lines]. rewrite N.eqb_refl. f_equal.
      rewrite app_assoc, split_lines_no_lf, Hb; [reflexivity|].
      intros H. apply elem_of_app in H as [H|H]; [exact (Hlf H)|exact (Hx H)]. }
  rewrite Hsplit, Hd, str_join_middle, <- !app_assoc. reflexivity.
Qed.

Lemma header_literal_shape (w : World) (root : str) (args : Args) :
  exists a b, forall now,
    header_literal w now root args
    = a ++ chr_lf :: u "    Generated: (local time) " ++ now ++ chr_lf :: b.
Proof.
  exists ([chr_lf] ++ u "    " ++ banner ++ nl4 "Repo to Text Export"
          ++ nl4 "Root: " ++ os_path_abspath w root).
  exists (u "    " ++ u "Include hidden: " ++ str_of_bool (include_hidden args)
          ++ nl4 "Max file size (bytes): "
          ++ (if negb (max_file_size args =? 0)%Z
              then str_of_int (max_file_size args) else u "None")
          ++ nl4 "PDF extraction enabled: "
          ++ str_of_bool (pdf args && _HAS_PYMUPDF w)
          ++ nl4 "DOCX extraction enabled: "
          ++ str_of_bool (docx args && _HAS_PYTHON_DOCX w)
          ++ nl4 "Ignored dirs: "
          ++ str_join (u ", ") (sorted (elements (ignore_dirs args)))
          ++ nl4 "Only extensions: " ++ join_or_None (only_ext args)
          ++ nl4 "Skipped extensions: " ++ join_or_None (skip_ext args)
          ++ [chr_lf] ++ u "    " ++ banner
          ++ [chr_lf] ++ u "    ").
  intros now. unfold header_literal.
  change (u "    Generated: (local time) ")
    with (u "    " ++ u "Generated: (local time) ").
  unfold nl4. rewrite <- !app_assoc. reflexivity.
Qed.

(** The header depends on the time stamp only where the time stamp is
    written. *)
Lemma write_header_shape (w : World) (root : str) (args : Args) :
  exists pre post, forall now, chr_lf ∉ now ->
    write_header w now root args
    = pre ++ u "Generated: (local time) " ++ now ++ chr_lf :: post.
Proof.
  destruct (header_literal_shape w root args) as (a & b & Hlit).
  destruct (dedent_middle a (u "    Generated: (local time) ") b)
    as (pre & post & Hd).
  - vm_compute. discriminate.
  - intros H. apply list_elem_of_In in H. vm_compute in H. intuition discriminate.
  - exists pre, (post ++ [chr_lf]). intros now Hnow.
    unfold write_header. rewrite Hlit, (Hd now Hnow).
    change (after_ws (u "    Generated: (local time) "))
      with (u "Generated: (local time) ").
    rewrite <- !app_assoc. reflexivity.
Qed.

(** ** Fuel *)

(** Each step of the UTF-8 decoder that yields something consumes at least
    one byte of a non-empty input. *)
Lemma utf8_step_consumes (bs : bytes) :
  match utf8_step bs with
  | U_end => bs = []
  | U_char _ k | U_bad k => (1 <= k)%nat /\ bs <> []
  end.
Proof.
  unfold utf8_step. destruct bs as [|b0 r0]; [reflexivity|].
  cbv zeta.
  repeat match goal with
         | |- context [if ?b then _ else _] => destruct b
         | |- context [match ?l with [] => _ | _ :: _ => _ end] => destruct l
         end; split; solve [lia | discriminate].
Qed.

(** More fuel than the length of the input changes nothing. *)
Lemma decode_utf8_loop_fuel (errors : errors_mode) (f1 f2 : nat) (bs : bytes) :
  (length bs <= f1)%nat -> (length bs <= f2)%nat ->
  decode_utf8_loop f1 errors bs = decode_utf8_loop f2 errors bs.
Proof.
  revert f2 bs. induction f1 as [|f1 IH]; intros f2 bs H1 H2.
  - destruct bs; [|cbn in H1; lia]. destruct f2; reflexivity.
  - destruct f2 as [|f2].
    + destruct bs; [|cbn in H2; lia]. reflexivity.
    + cbn [decode_utf8_loop].
      pose proof (utf8_step_consumes bs) as Hc.
      destruct (utf8_step bs) as [|cp k|k]; [reflexivity| |].
      * destruct Hc as [Hk Hne]. rewrite (IH f2 (drop k bs)); [reflexivity|..];
          rewrite length_drop; destruct bs; [congruence| |congruence|];
          cbn [length] in *; lia.
      * destruct errors; [reflexivity|].
        destruct Hc as [Hk Hne]. rewrite (IH f2 (drop k bs)); [reflexivity|..];
          rewrite length_drop; destruct bs; [congruence| |congruence|];
          cbn [length] in *; lia.
Qed.

Lemma replace_loop_fuel (old new : str) (f1 f2 : nat) (s : str) :
  old <> [] -> (length s <= f1)%nat -> (length s <= f2)%nat ->
  replace_loop f1 old new s = replace_loop f2 old new s.
Proof.
  intros Hold. revert f2 s. induction f1 as [|f1 IH]; intros f2 s H1 H2.
  - destruct s; [|cbn in H1; lia]. destruct f2; reflexivity.
  - destruct f2 as [|f2].
    + destruct s; [|cbn in H2; lia]. reflexivity.
    + cbn [replace_loop]. destruct s as [|c rest]; [reflexivity|].
      cbn [length] in H1, H2.
      destruct (startswith (c :: rest) old).
      * f_equal. apply IH; rewrite length_drop; cbn [length];
          destruct old; [congruence| |congruence|]; cbn [length]; lia.
      * f_equal. apply IH; lia.
Qed.

(** ** Evaluations *)

Example splitext_examples :
  splitext (u "/a/b.c/foo.tar.GZ") = (u "/a/b.c/foo.tar", u ".GZ")
  /\ splitext (u "/a/b.c/.bashrc") = (u "/a/b.c/.bashrc", [])
  /\ splitext (u "/a/b.c/..x.py") = (u "/a/b.c/..x", u ".py")
  /\ splitext (u "a.b/c") = (u "a.b/c", [])
  /\ splitext (u "x.") = (u "x", u ".").
Proof. vm_compute. repeat split. Qed.

Example decode_examples :
  decode Utf8 Strict [xe2; x82; xac; x41] = Some [8364; 65]%N
  /\ decode Utf8 Strict [xed; xa0; x80] = None
  /\ decode Utf8 Replace [xe2; x28; xa1] = Some [65533; 40; 65533]%N
  /\ decode Utf8 Replace [xf0; x9f; x98; x41] = Some [65533; 65]%N
  /\ decode Utf8Sig Strict [xef; xbb; xbf; x41] = Some [65]%N
  /\ decode Utf8 Strict [xef; xbb; xbf; x41] = Some [65279; 65]%N
  /\ decode Cp1252 Strict [x80; x41] = Some [8364; 65]%N
  /\ decode Cp1252 Strict [x81] = None
  /\ decode Latin1 Strict [x81; xff] = Some [129; 255]%N.
Proof. vm_compute. repeat split. Qed.

Example newline_examples :
  translate_newlines [97; 13; 10; 98; 13; 99; 13]%N = [97; 10; 98; 10; 99; 10]%N
  /\ str_replace (str_replace [97; 13; 10; 98; 13; 99]%N [chr_cr; chr_lf] [chr_lf])
       [chr_cr] [chr_lf] = [97; 10; 98; 10; 99]%N.
Proof. vm_compute. repeat split. Qed.

Example dedent_example :
  dedent ([chr_lf] ++ u "    a" ++ [chr_lf] ++ u "      b" ++ [chr_lf] ++ u "    ")
  = [chr_lf] ++ u "a" ++ [chr_lf] ++ u "  b" ++ [chr_lf].
Proof. vm_compute. reflexivity. Qed.

Example sniffer_examples :
  is_probably_binary [] = false
  /\ is_probably_binary (bytes_of "hello") = false
  /\ is_probably_binary [x80; x80; x41; x41; x41; x41] = true
  /\ is_probably_binary [x80; x80; x80; x41; x41; x41; x41; x41; x41; x41] = false
  /\ is_probably_binary [x08; x09; x0a; x0c; x0d] = false.
Proof. vm_compute. repeat split. Qed.

(** A directory with [a.py], a picture, a hidden file, a [node_modules]
    directory and a sub-directory: what is enumerated, what is included,
    and the counters at the end. *)
Example demo_enumeration :
  iter_files demo_world (u "/repo") false (ignore_dirs demo_args)
  = [u "/repo/a.py"; u "/repo/b.png"; u "/repo/src/big.txt"].
Proof. vm_compute. reflexivity. Qed.

Example demo_python_chunk :
  process_file demo_world (u "/repo/a.py") (u "/repo") demo_args
  = Ok (Some ([chr_lf] ++ u "===== FILE: a.py (size=8 bytes) =====" ++ [chr_lf]
              ++ u "```python" ++ [chr_lf] ++ u "print(1)" ++ [chr_lf]
              ++ u "```" ++ [chr_lf])).
Proof. vm_compute. reflexivity. Qed.

Example demo_picture_skipped :
  process_file demo_world (u "/repo/b.png") (u "/repo") demo_args = Ok None.
Proof. vm_compute. reflexivity. Qed.

Example demo_size_ceiling :
  process_file demo_world (u "/repo/src/big.txt") (u "/repo")
    (set_max_file_size demo_args 5) = Ok None
  /\ process_file demo_world (u "/repo/src/big.txt") (u "/repo")
       (set_max_file_size demo_args 0)
     = Ok (Some ([chr_lf] ++ u "===== FILE: src/big.txt (size=10 bytes) ====="
                 ++ [chr_lf] ++ u "```text" ++ [chr_lf] ++ u "0123456789"
                 ++ [chr_lf] ++ u "```" ++ [chr_lf])).
Proof. vm_compute. split; reflexivity. Qed.

(** * Further properties *)

(** ** Binary sniffer, for every sample *)

Lemma zero_byte_mem_binary (sample : bytes) :
  x00 ∈ sample -> is_probably_binary sample = true.
Proof.
  intros Hin. unfold is_probably_binary. destruct sample as [|b rest].
  - inversion Hin.
  - rewrite (bool_decide_eq_true_2 _ Hin). reflexivity.
Qed.

(** The verdict in closed form, for every sample. *)
Lemma is_probably_binary_closed (sample : bytes) :
  is_probably_binary sample
  = bool_decide (x00 ∈ sample)
    || (3 * Z.of_nat (length sample) <? 10 * spec_suspicious_count sample).
Proof.
  destruct sample as [|b rest] eqn:E; [reflexivity|]. rewrite <- E.
  assert (Hne : sample <> []) by (subst; discriminate).
  destruct (decide (x00 ∈ sample)) as [Hz|Hz].
  - rewrite (zero_byte_mem_binary _ Hz), (bool_decide_eq_true_2 _ Hz). reflexivity.
  - rewrite (bool_decide_eq_false_2 _ Hz). cbn [orb].
    pose proof (is_probably_binary_ratio sample Hne Hz) as H.
    destruct (is_probably_binary sample).
    + symmetry. apply Z.ltb_lt, H. reflexivity.
    + symmetry. apply Z.ltb_ge.
      destruct (Z.le_gt_cases (10 * spec_suspicious_count sample)
                  (3 * Z.of_nat (length sample))) as [Hle|Hgt]; [exact Hle|].
      apply H in Hgt. discriminate Hgt.
Qed.

Lemma clean_byte_not_suspicious (b : byte) :
  clean_byte b = true -> spec_suspicious b = false /\ b <> x00.
Proof.
  unfold clean_byte. rewrite clean_byte_spec. intros H.
  split; [destruct (spec_suspicious b); [discriminate H|reflexivity]|].
  intros ->. vm_compute in H. discriminate H.
Qed.

(** X1: a sample made only of printable ASCII and of the whitelisted
    control bytes is not classified binary. *)
Theorem clean_sample_not_binary (sample : bytes) :
  Forall (fun b => clean_byte b = true) sample ->
  is_probably_binary sample = false.
Proof.
  intros Hall. rewrite is_probably_binary_closed.
  assert (Hz : x00 ∉ sample).
  { intros Hin. rewrite Forall_forall in Hall.
    destruct (clean_byte_not_suspicious _ (Hall _ Hin)) as [_ Hne]. congruence. }
  assert (Hc : spec_suspicious_count sample = 0).
  { unfold spec_suspicious_count.
    induction Hall as [|b rest Hb _ IH]; [reflexivity|].
    cbn [List.filter]. rewrite (proj1 (clean_byte_not_suspicious _ Hb)).
    apply IH. intros Hin. apply Hz. right. exact Hin. }
  rewrite (bool_decide_eq_false_2 _ Hz), Hc. cbn [orb].
  apply Z.ltb_ge. lia.
Qed.

Lemma clean_sample_not_binary_witness :
  is_probably_binary (bytes_of "def f(x): return x") = false.
Proof.
  apply clean_sample_not_binary.
  apply (bool_decide_unpack _). vm_compute. exact I.
Defined.

Lemma spec_suspicious_count_perm (s s' : bytes) :
  s ≡ₚ s' -> spec_suspicious_count s = spec_suspicious_count s'.
Proof.
  intros Hp. unfold spec_suspicious_count. f_equal.
  induction Hp as [|x l l' _ IH|x y l|l l' l'' _ IH1 _ IH2]; cbn [List.filter].
  - reflexivity.
  - destruct (spec_suspicious x); cbn [length]; congruence.
  - destruct (spec_suspicious x), (spec_suspicious y); reflexivity.
  - congruence.
Qed.

(** X2: the verdict depends on which bytes a sample holds, not on their
    order. *)
Theorem verdict_ignores_order (sample sample' : bytes) :
  sample ≡ₚ sample' ->
  is_probably_binary sample = is_probably_binary sample'.
Proof.
  intros Hp. rewrite !is_probably_binary_closed.
  rewrite (spec_suspicious_count_perm _ _ Hp), (Permutation_length Hp).
  f_equal. apply bool_decide_ext. rewrite Hp. reflexivity.
Qed.

Lemma verdict_ignores_order_witness :
  is_probably_binary [x41; x80; x42; xff]
  = is_probably_binary [xff; x80; x41; x42].
Proof.
  apply verdict_ignores_order.
  change [x41; x80; x42; xff] with ([x41; x80; x42] ++ [xff]).
  rewrite <- Permutation_cons_append. apply perm_skip.
  apply perm_swap.
Defined.

(** ** Reading text, in detail *)

Lemma decode_utf8_loop_step (fuel : nat) (errors : errors_mode) (bs : bytes) :
  decode_utf8_loop (S fuel) errors bs
  = match utf8_step bs with
    | U_end => Some []
    | U_char cp k =>
        cons (Z.to_N cp) <$> decode_utf8_loop fuel errors (drop k bs)
    | U_bad k =>
        match errors with
        | Strict => None
        | Replace => cons 65533%N <$> decode_utf8_loop fuel errors (drop k bs)
        end
    end.
Proof. reflexivity. Qed.

Lemma decode_utf8_bom (errors : errors_mode) (rest : bytes) :
  decode_utf8 errors (xef :: xbb :: xbf :: rest)
  = cons 65279%N <$> decode_utf8 errors rest.
Proof.
  unfold decode_utf8.
  change (length (xef :: xbb :: xbf :: rest)) with (S (S (S (length rest)))).
  rewrite decode_utf8_loop_step.
  change (utf8_step (xef :: xbb :: xbf :: rest)) with (U_char 65279 3).
  change (drop 3 (xef :: xbb :: xbf :: rest)) with rest.
  change (Z.to_N 65279) with 65279%N.
  f_equal. apply decode_utf8_loop_fuel; lia.
Qed.

(** Bytes that are not UTF-8 are not UTF-8 behind a byte-order mark
    either. *)
Lemma decode_utf8_sig_none (raw : bytes) :
  decode_utf8 Strict raw = None -> decode_utf8_sig Strict raw = None.
Proof.
  intros H. unfold decode_utf8_sig.
  destruct raw as [|b0 [|b1 [|b2 rest]]]; [exact H| | |].
  - destruct b0; exact H.
  - destruct b0; try exact H. destruct b1; exact H.
  - destruct b0; try exact H. destruct b1; try exact H.
    destruct b2; try exact H.
    rewrite decode_utf8_bom in H.
    destruct (decode_utf8 Strict rest); [discriminate H|reflexivity].
Qed.

Lemma read_text_file_value w path raw :
  open_r_read w path = Some raw ->
  read_text_file w path default_encodings
  = Ok (Some (translate_newlines
                (default (decode_latin1 raw) (decode_utf8 Strict raw)))).
Proof.
  intros Hr. unfold read_text_file, default_encodings. cbn [read_text_loop].
  unfold open_read_text. rewrite Hr. cbn [os_call bind decode].
  destruct (decode_utf8 Strict raw) as [s|] eqn:E; [reflexivity|].
  rewrite (decode_utf8_sig_none _ E). reflexivity.
Qed.



(** X4: a byte-order mark at the head of a UTF-8 file is not removed: the
    text starts with U+FEFF. *)
Theorem byte_order_mark_kept (w : World) (path : str) (rest : bytes) (s : str) :
  open_r_read w path = Some (xef :: xbb :: xbf :: rest) ->
  decode_utf8 Strict rest = Some s ->
  read_text_file w path default_encodings
  = Ok (Some (65279%N :: translate_newlines s)).
Proof.
  intros Hr Hs. rewrite (read_text_file_value w path _ Hr).
  rewrite decode_utf8_bom, Hs. reflexivity.
Qed.

(** X5: whatever list of encodings is passed, [read_text_file] raises
    nothing, returns a string for every readable file (the decoding with
    placeholders cannot fail), and returns [None] exactly when the file
    cannot be read. *)
Theorem read_text_file_any_encodings (w : World) (path : str)
  (encodings : list encoding) :
  (forall raw, open_r_read w path = Some raw ->
     exists s, read_text_file w path encodings = Ok (Some s))
  /\ (read_text_file w path encodings = Ok None <-> open_r_read w path = None).
Proof.
  assert (Hread : forall raw, open_r_read w path = Some raw ->
            exists s, read_text_file w path encodings = Ok (Some s)).
  { intros raw Hr. unfold read_text_file.
    destruct (read_text_loop w path encodings) as [s|]; [eauto|].
    unfold open_read_text. rewrite Hr. cbn [os_call bind decode].
    destruct (decode_utf8_loop_replace (length raw) raw) as [s Hs].
    unfold decode_utf8. rewrite Hs. cbn. eauto. }
  split; [exact Hread|]. split.
  - intros Hnone. destruct (open_r_read w path) as [raw|] eqn:Hr; [|reflexivity].
    destruct (Hread raw eq_refl) as [s Hs]. rewrite Hs in Hnone. discriminate.
  - intros Hr. unfold read_text_file.
    rewrite read_text_loop_unreadable by exact Hr.
    rewrite (open_read_text_unreadable _ _ Utf8 Replace Hr). reflexivity.
Qed.

Lemma read_text_file_any_encodings_witness :
  exists s, read_text_file demo_world (u "/repo/b.png") [] = Ok (Some s).
Proof.
  apply (proj1 (read_text_file_any_encodings demo_world (u "/repo/b.png") [])
           [x89; x50; x00; x47]).
  vm_compute. reflexivity.
Defined.

Lemma byte_order_mark_kept_witness :
  read_text_file bom_world (u "/repo/bom.txt") default_encodings
  = Ok (Some (65279%N :: u "hi")).
Proof.
  apply (byte_order_mark_kept bom_world (u "/repo/bom.txt") [x68; x69] (u "hi")).
  - vm_compute. reflexivity.
  - vm_compute. reflexivity.
Defined.

(** ** Core processing, in detail *)

(** X6: a file whose extension is in the always-skip set is excluded,
    unless the extension is [.pdf], PDF extraction was asked for and the
    PDF library is present. *)
Theorem always_skip_excluded (w : World) (path root : str) (args : Args) :
  str_lower w (splitext path).2 ∈ ALWAYS_SKIP_EXTS ->
  str_lower w (splitext path).2 <> u ".pdf" \/ pdf args = false
  \/ _HAS_PYMUPDF w = false ->
  process_file w path root args = Ok None.
Proof.
  intros Hskip Hno. unfold process_file.
  rewrite (bool_decide_eq_true_2 _ Hskip).
  replace (bool_decide (_ ∈ PDF_EXTS) && pdf args && _HAS_PYMUPDF w) with false;
    [reflexivity|].
  symmetry. destruct Hno as [Hne|[-> | ->]].
  - rewrite bool_decide_eq_false_2; [reflexivity|].
    intros Hin. apply Hne. unfold PDF_EXTS in Hin.
    apply elem_of_list_to_set, list_elem_of_fmap in Hin as (s & -> & Hs).
    apply list_elem_of_In in Hs. destruct Hs as [<-|[]]. reflexivity.
  - apply andb_false_iff. left. apply andb_false_r.
  - apply andb_false_r.
Qed.

Lemma always_skip_excluded_witness :
  process_file demo_world (u "/repo/b.png") (u "/repo") demo_args = Ok None.
Proof.
  apply always_skip_excluded.
  - apply (bool_decide_unpack _). vm_compute. exact I.
  - left. vm_compute. discriminate.
Defined.

(** X7: a file is excluded when the deny-list holds its extension, and
    when a non-empty allow-list does not hold it. *)
Theorem listed_exclusion (w : World) (path root : str) (args : Args) :
  (only_ext args <> ∅ /\ str_lower w (splitext path).2 ∉ only_ext args)
  \/ str_lower w (splitext path).2 ∈ skip_ext args ->
  process_file w path root args = Ok None.
Proof.
  intros H. unfold process_file.
  destruct (bool_decide (_ ∈ ALWAYS_SKIP_EXTS) && _); [reflexivity|].
  replace (_ || _) with true; [reflexivity|]. symmetry.
  destruct H as [[Hne Hnot]|Hin].
  - apply orb_true_iff. left. unfold truthy.
    rewrite (bool_decide_eq_false_2 _ Hne), (bool_decide_eq_false_2 _ Hnot).
    reflexivity.
  - apply orb_true_iff. right.
    rewrite (truthy_elem _ _ Hin), (bool_decide_eq_true_2 _ Hin). reflexivity.
Qed.

Lemma listed_exclusion_witness :
  process_file demo_world (u "/repo/src/big.txt") (u "/repo") both_lists_args
  = Ok None.
Proof.
  apply listed_exclusion. left. split.
  - apply (bool_decide_unpack _). vm_compute. exact I.
  - apply (bool_decide_unpack _). vm_compute. exact I.
Defined.

Lemma extract_docx_text_absent w path :
  _HAS_PYTHON_DOCX w = false -> extract_docx_text w path = Ok None.
Proof. intros H. unfold extract_docx_text. rewrite H. reflexivity. Qed.

Lemma extract_pdf_text_absent w path :
  _HAS_PYMUPDF w = false -> extract_pdf_text w path = Ok None.
Proof. intros H. unfold extract_pdf_text. rewrite H. reflexivity. Qed.

(** What [process_file] computes when neither optional library is
    present. *)
Lemma process_file_plain_form w path root args :
  _HAS_PYMUPDF w = false -> _HAS_PYTHON_DOCX w = false ->
  let ext := str_lower w (splitext path).2 in
  let size := default (-1) (os_path_getsize w path) in
  process_file w path root args
  = Ok (if bool_decide (ext ∈ ALWAYS_SKIP_EXTS) then None
        else if (truthy (only_ext args) && negb (bool_decide (ext ∈ only_ext args)))
                || (truthy (skip_ext args) && bool_decide (ext ∈ skip_ext args))
        then None
        else if negb (max_file_size args =? 0) && (size >? max_file_size args)
        then None
        else match open_rb_read w path 4096 with
             | None => None
             | Some head =>
                 if negb (bool_decide (ext ∈ PREFER_TEXT_EXTS))
                    && is_probably_binary head
                 then None
                 else match open_r_read w path with
                      | None => None
                      | Some raw =>
                          render w (default path (os_path_relpath w path root))
                            size ext
                            (Some (translate_newlines
                                     (default (decode_latin1 raw)
                                        (decode_utf8 Strict raw))))
                      end
             end).
Proof.
  intros Hpdf Hdocx ext size. unfold process_file. fold ext.
  rewrite Hpdf, andb_false_r. cbn [negb]. rewrite andb_true_r.
  destruct (bool_decide (ext ∈ ALWAYS_SKIP_EXTS)); [reflexivity|].
  destruct (_ || _); [reflexivity|].
  replace (try_except (os_call (os_path_getsize w path)) (Ok (-1)))
    with (Ok (A := Z) size)
    by (unfold size; destruct (os_path_getsize w path); reflexivity).
  cbn [bind].
  destruct (negb _ && _); [reflexivity|].
  replace (safe_relpath w path root)
    with (Ok (A := str) (default path (os_path_relpath w path root)))
    by (unfold safe_relpath; destruct (os_path_relpath w path root); reflexivity).
  cbn [bind].
  rewrite (extract_docx_text_absent _ _ Hdocx), (extract_pdf_text_absent _ _ Hpdf).
  assert (Hstage : forall (b1 b2 : bool) (k : option str -> res (option str)),
    (content <- (if b1 then Ok None else Ok None);;
     content0 <- match content with
                 | Some _ => Ok content
                 | None => if b2 then Ok None else Ok None
                 end;; k content0) = k None).
  { intros [] [] k; reflexivity. }
  rewrite Hstage.
  destruct (open_rb_read w path 4096) as [head|]; cbn [os_call]; [|reflexivity].
  destruct (negb _ && _); [reflexivity|].
  destruct (open_r_read w path) as [raw|] eqn:Hr.
  - rewrite (read_text_file_value _ _ _ Hr). reflexivity.
  - rewrite (read_text_file_unreadable _ _ Hr). reflexivity.
Qed.

Lemma render_some w rel size ext content :
  exists chunk, render w rel size ext (Some content) = Some chunk.
Proof. unfold render. destruct (fence_for_ext w ext). eauto. Qed.

Lemma Ok_inj {A : Type} (a b : A) : Ok a = Ok b -> a = b.
Proof. intros H. congruence. Qed.

(** X8: without the optional libraries a file is included exactly when its
    extension is not always skipped, the allow-list and the deny-list let it
    pass, it is within the size ceiling, its head can be read and, unless
    the extension is a prefer-text one, does not look binary, and its text
    can be read. *)
Theorem plain_inclusion (w : World) (path root : str) (args : Args) :
  _HAS_PYMUPDF w = false -> _HAS_PYTHON_DOCX w = false ->
  (exists chunk, process_file w path root args = Ok (Some chunk))
  <-> (str_lower w (splitext path).2 ∉ ALWAYS_SKIP_EXTS)
      /\ (only_ext args = ∅ \/ str_lower w (splitext path).2 ∈ only_ext args)
      /\ (str_lower w (splitext path).2 ∉ skip_ext args)
      /\ (max_file_size args = 0
          \/ default (-1) (os_path_getsize w path) <= max_file_size args)
      /\ (exists head, open_rb_read w path 4096 = Some head
            /\ (str_lower w (splitext path).2 ∈ PREFER_TEXT_EXTS
                \/ is_probably_binary head = false))
      /\ (exists raw, open_r_read w path = Some raw).
Proof.
  intros Hpdf Hdocx. rewrite (process_file_plain_form w path root args Hpdf Hdocx).
  cbv zeta. set (ext := str_lower w (splitext path).2).
  set (size := default (-1) (os_path_getsize w path)).
  split.
  - intros [chunk H]. apply Ok_inj in H.
    destruct (decide (ext ∈ ALWAYS_SKIP_EXTS)) as [Hskip|Hskip];
      [rewrite (bool_decide_eq_true_2 _ Hskip) in H; discriminate H|].
    rewrite (bool_decide_eq_false_2 _ Hskip) in H.
    split; [exact Hskip|].
    destruct (_ || _) eqn:Hl in H; [discriminate H|].
    apply orb_false_iff in Hl as [Ho Hs].
    split.
    { destruct (decide (only_ext args = ∅)) as [He|He]; [left; exact He|].
      right. unfold truthy in Ho. rewrite (bool_decide_eq_false_2 _ He) in Ho.
      cbn [negb andb] in Ho. apply negb_false_iff in Ho.
      apply bool_decide_eq_true_1 in Ho. exact Ho. }
    split.
    { intros Hin. rewrite (truthy_elem _ _ Hin), (bool_decide_eq_true_2 _ Hin) in Hs.
      discriminate Hs. }
    destruct (negb _ && _) eqn:Hz in H; [discriminate H|].
    split.
    { apply andb_false_iff in Hz as [Hz|Hz].
      - left. apply negb_false_iff, Z.eqb_eq in Hz. exact Hz.
      - right. rewrite Z.gtb_ltb in Hz. apply Z.ltb_ge in Hz. exact Hz. }
    destruct (open_rb_read w path 4096) as [head|]; [|discriminate H].
    destruct (negb _ && _) eqn:Hb in H; [discriminate H|].
    split.
    { exists head. split; [reflexivity|].
      apply andb_false_iff in Hb as [Hb|Hb].
      - left. apply negb_false_iff, bool_decide_eq_true_1 in Hb. exact Hb.
      - right. exact Hb. }
    destruct (open_r_read w path) as [raw|]; [eauto|discriminate H].
  - intros (Hskip & Honly & Hdeny & Hsize & (head & Hhead & Hbin) & (raw & Hraw)).
    rewrite (bool_decide_eq_false_2 _ Hskip).
    replace (_ || _) with false.
    2:{ symmetry. apply orb_false_iff. split.
        - destruct Honly as [-> | Hin].
          + unfold truthy. rewrite bool_decide_eq_true_2 by reflexivity. reflexivity.
          + rewrite (bool_decide_eq_true_2 _ Hin). apply andb_false_r.
        - rewrite (bool_decide_eq_false_2 _ Hdeny). apply andb_false_r. }
    replace (negb (max_file_size args =? 0) && _) with false.
    2:{ symmetry. destruct Hsize as [-> | Hle]; [reflexivity|].
        apply andb_false_iff. right. rewrite Z.gtb_ltb. apply Z.ltb_ge. exact Hle. }
    rewrite Hhead.
    replace (negb (bool_decide (ext ∈ PREFER_TEXT_EXTS)) && is_probably_binary head)
      with false.
    2:{ symmetry. destruct Hbin as [Hp|Hb].
        - rewrite (bool_decide_eq_true_2 _ Hp). reflexivity.
        - rewrite Hb. apply andb_false_r. }
    rewrite Hraw.
    destruct (render_some w (default path (os_path_relpath w path root)) size ext
                (translate_newlines (default (decode_latin1 raw) (decode_utf8 Strict raw))))
      as [chunk ->].
    eauto.
Qed.

Lemma plain_inclusion_witness :
  exists chunk,
    process_file demo_world (u "/repo/src/big.txt") (u "/repo") demo_args
    = Ok (Some chunk).
Proof.
  apply (proj2 (plain_inclusion demo_world (u "/repo/src/big.txt") (u "/repo")
                  demo_args eq_refl eq_refl)).
  split; [apply (bool_decide_unpack _); vm_compute; exact I|].
  split; [left; apply (bool_decide_unpack _); vm_compute; exact I|].
  split; [apply (bool_decide_unpack _); vm_compute; exact I|].
  split; [left; reflexivity|].
  split.
  - exists (bytes_of "0123456789"). split; [vm_compute; reflexivity|].
    right. vm_compute. reflexivity.
  - exists (bytes_of "0123456789"). vm_compute. reflexivity.
Defined.

(** ** Extraction *)

Lemma extract_docx_text_value w path :
  extract_docx_text w path = Ok (docx_text w path).
Proof.
  unfold extract_docx_text, docx_text.
  destruct (_HAS_PYTHON_DOCX w); [|reflexivity].
  destruct (docx_Document w path); reflexivity.
Qed.

Lemma extract_pdf_text_value w path :
  extract_pdf_text w path = Ok (pdf_text w path).
Proof.
  unfold extract_pdf_text, pdf_text.
  destruct (_HAS_PYMUPDF w); [|reflexivity].
  destruct (fitz_open w path); reflexivity.
Qed.

(** What [process_file] computes once a file has passed the filters on
    its extension and its size. *)
Lemma process_file_form w path root args :
  let ext := str_lower w (splitext path).2 in
  let size := default (-1) (os_path_getsize w path) in
  let rel := default path (os_path_relpath w path root) in
  bool_decide (ext ∈ ALWAYS_SKIP_EXTS)
  && negb (bool_decide (ext ∈ PDF_EXTS) && pdf args && _HAS_PYMUPDF w) = false ->
  (truthy (only_ext args) && negb (bool_decide (ext ∈ only_ext args)))
  || (truthy (skip_ext args) && bool_decide (ext ∈ skip_ext args)) = false ->
  negb (max_file_size args =? 0) && (size >? max_file_size args) = false ->
  process_file w path root args
  = Ok (match
          match (if bool_decide (ext ∈ DOCX_EXTS) && docx args
                 then docx_text w path else None) with
          | Some c => Some c
          | None => if bool_decide (ext ∈ PDF_EXTS) && pdf args
                    then pdf_text w path else None
          end
        with
        | Some c => render w rel size ext (Some c)
        | None =>
            match open_rb_read w path 4096 with
            | None => None
            | Some head =>
                if negb (bool_decide (ext ∈ PREFER_TEXT_EXTS))
                   && is_probably_binary head
                then None
                else match open_r_read w path with
                     | None => None
                     | Some raw =>
                         render w rel size ext
                           (Some (translate_newlines
                                    (default (decode_latin1 raw)
                                       (decode_utf8 Strict raw))))
                     end
            end
        end).
Proof.
  intros ext size rel H1 H2 H3. unfold process_file. fold ext.
  rewrite H1, H2.
  replace (try_except (os_call (os_path_getsize w path)) (Ok (-1)))
    with (Ok (A := Z) size)
    by (unfold size; destruct (os_path_getsize w path); reflexivity).
  cbn [bind]. rewrite H3.
  replace (safe_relpath w path root) with (Ok (A := str) rel)
    by (unfold rel, safe_relpath; destruct (os_path_relpath w path root); reflexivity).
  cbn [bind].
  rewrite extract_docx_text_value, extract_pdf_text_value.
  assert (Hplain :
    match os_call (open_rb_read w path 4096) with
    | Ok head =>
        if negb (bool_decide (ext ∈ PREFER_TEXT_EXTS)) && is_probably_binary head
        then Ok None
        else (content <- read_text_file w path default_encodings;;
              Ok (render w rel size ext content))
    | Raise _ => Ok None
    end
    = Ok match open_rb_read w path 4096 with
         | None => None
         | Some head =>
             if negb (bool_decide (ext ∈ PREFER_TEXT_EXTS)) && is_probably_binary head
             then None
             else match open_r_read w path with
                  | None => None
                  | Some raw =>
                      render w rel size ext
                        (Some (translate_newlines
                                 (default (decode_latin1 raw)
                                    (decode_utf8 Strict raw))))
                  end
         end).
  { destruct (open_rb_read w path 4096) as [head|]; cbn [os_call]; [|reflexivity].
    destruct (negb (bool_decide (ext ∈ PREFER_TEXT_EXTS)) && is_probably_binary head);
      [reflexivity|].
    destruct (open_r_read w path) as [raw|] eqn:Hr.
    - rewrite (read_text_file_value _ _ _ Hr). reflexivity.
    - rewrite (read_text_file_unreadable _ _ Hr). reflexivity. }
  destruct (bool_decide (ext ∈ DOCX_EXTS) && docx args); cbn [bind].
  - destruct (docx_text w path) as [c|]; cbn [bind]; [reflexivity|].
    destruct (bool_decide (ext ∈ PDF_EXTS) && pdf args); cbn [bind].
    + destruct (pdf_text w path); [reflexivity|exact Hplain].
    + exact Hplain.
  - destruct (bool_decide (ext ∈ PDF_EXTS) && pdf args); cbn [bind].
    + destruct (pdf_text w path); [reflexivity|exact Hplain].
    + exact Hplain.
Qed.

Lemma lists_pass (args : Args) (ext : str) :
  only_ext args = ∅ \/ ext ∈ only_ext args -> ext ∉ skip_ext args ->
  (truthy (only_ext args) && negb (bool_decide (ext ∈ only_ext args)))
  || (truthy (skip_ext args) && bool_decide (ext ∈ skip_ext args)) = false.
Proof.
  intros Honly Hdeny. apply orb_false_iff. split.
  - destruct Honly as [-> | Hin].
    + unfold truthy. rewrite bool_decide_eq_true_2 by reflexivity. reflexivity.
    + rewrite (bool_decide_eq_true_2 _ Hin). apply andb_false_r.
  - rewrite (bool_decide_eq_false_2 _ Hdeny). apply andb_false_r.
Qed.

Lemma size_pass (args : Args) (size : Z) :
  max_file_size args = 0 \/ size <= max_file_size args ->
  negb (max_file_size args =? 0) && (size >? max_file_size args) = false.
Proof.
  intros [-> | Hle]; [reflexivity|].
  apply andb_false_iff. right. rewrite Z.gtb_ltb. apply Z.ltb_ge. exact Hle.
Qed.

(** X9: a [.pdf] file, with PDF extraction asked for and the library
    present, that passes the lists and the size ceiling and whose pages the
    library reads, is included with the pages joined by line breaks as its
    text; [process_file] itself does not open the file. *)
Theorem pdf_extracted (w : World) (path root : str) (args : Args)
  (pages : list str) :
  str_lower w (splitext path).2 = u ".pdf" ->
  pdf args = true -> _HAS_PYMUPDF w = true ->
  fitz_open w path = Some pages ->
  only_ext args = ∅ \/ u ".pdf" ∈ only_ext args -> u ".pdf" ∉ skip_ext args ->
  max_file_size args = 0
  \/ default (-1) (os_path_getsize w path) <= max_file_size args ->
  process_file w path root args
  = Ok (render w (default path (os_path_relpath w path root))
          (default (-1) (os_path_getsize w path)) (u ".pdf")
          (Some (str_join [chr_lf] pages))).
Proof.
  intros Hext Hpdf Hlib Hpages Honly Hdeny Hsize.
  rewrite process_file_form; cbv zeta; rewrite ?Hext.
  - replace (bool_decide (u ".pdf" ∈ DOCX_EXTS)) with false
      by (vm_compute; reflexivity).
    replace (bool_decide (u ".pdf" ∈ PDF_EXTS)) with true
      by (vm_compute; reflexivity).
    rewrite Hpdf. cbn [andb]. unfold pdf_text. rewrite Hlib, Hpages. reflexivity.
  - replace (bool_decide (u ".pdf" ∈ PDF_EXTS)) with true
      by (vm_compute; reflexivity).
    rewrite Hpdf, Hlib. apply andb_false_r.
  - apply lists_pass; assumption.
  - apply size_pass; assumption.
Qed.

Lemma pdf_extracted_witness :
  process_file office_world (u "/repo/doc.pdf") (u "/repo") office_args
  = Ok (Some ([chr_lf] ++ u "===== FILE: doc.pdf (size=4 bytes) =====" ++ [chr_lf]
              ++ u "```" ++ [chr_lf] ++ u "page one" ++ [chr_lf] ++ u "page two"
              ++ [chr_lf] ++ u "```" ++ [chr_lf])).
Proof.
  refine (eq_trans (pdf_extracted office_world (u "/repo/doc.pdf") (u "/repo")
                      office_args [u "page one"; u "page two"] _ _ _ _ _ _ _) _).
  - vm_compute. reflexivity.
  - reflexivity.
  - reflexivity.
  - vm_compute. reflexivity.
  - left. reflexivity.
  - apply not_elem_of_empty.
  - left. reflexivity.
  - vm_compute. reflexivity.
Defined.



Lemma bind_singleton {A B : Type} (f : A -> B) (l : list A) :
  (x ← l; [f x]) = f <$> l.
Proof.
  induction l as [|a l IH]; [reflexivity|]. cbn. congruence.
Qed.

(** X11: a [.docx] file, with DOCX extraction asked for and the library
    present, that passes the lists and the size ceiling and that the library
    opens, is included; its text is the paragraphs followed by the rows of
    the tables, the cells of a row joined by tabs, all joined by line
    breaks.  A document without paragraphs and tables is included with an
    empty text. *)
Theorem docx_extracted (w : World) (path root : str) (args : Args)
  (document : DocxDocument) :
  str_lower w (splitext path).2 = u ".docx" ->
  docx args = true -> _HAS_PYTHON_DOCX w = true ->
  docx_Document w path = Some document ->
  only_ext args = ∅ \/ u ".docx" ∈ only_ext args -> u ".docx" ∉ skip_ext args ->
  max_file_size args = 0
  \/ default (-1) (os_path_getsize w path) <= max_file_size args ->
  process_file w path root args
  = Ok (render w (default path (os_path_relpath w path root))
          (default (-1) (os_path_getsize w path)) (u ".docx")
          (Some (str_join [chr_lf]
                   (paragraphs document
                    ++ (str_join [chr_tab] <$> mjoin (tables document)))))).
Proof.
  intros Hext Hdocx Hlib Hdoc Honly Hdeny Hsize.
  rewrite process_file_form; cbv zeta; rewrite ?Hext.
  - replace (bool_decide (u ".docx" ∈ DOCX_EXTS)) with true
      by (vm_compute; reflexivity).
    rewrite Hdocx. cbn [andb]. unfold docx_text. rewrite Hlib, Hdoc.
    cbn [fmap option_fmap option_map].
    rewrite (bind_singleton (str_join [chr_tab])). reflexivity.
  - replace (bool_decide (u ".docx" ∈ ALWAYS_SKIP_EXTS)) with false
      by (vm_compute; reflexivity).
    reflexivity.
  - apply lists_pass; assumption.
  - apply size_pass; assumption.
Qed.

Lemma docx_extracted_witness :
  process_file office_world (u "/repo/notes.docx") (u "/repo") office_args
  = Ok (Some ([chr_lf] ++ u "===== FILE: notes.docx (size=4 bytes) =====" ++ [chr_lf]
              ++ u "```" ++ [chr_lf] ++ u "Title" ++ [chr_lf]
              ++ u "a" ++ [chr_tab] ++ u "b"
              ++ [chr_lf] ++ u "```" ++ [chr_lf])).
Proof.
  refine (eq_trans (docx_extracted office_world (u "/repo/notes.docx") (u "/repo")
                      office_args
                      {| paragraphs := [u "Title"]; tables := [[[u "a"; u "b"]]] |}
                      _ _ _ _ _ _ _) _).
  - vm_compute. reflexivity.
  - reflexivity.
  - reflexivity.
  - vm_compute. reflexivity.
  - left. reflexivity.
  - apply not_elem_of_empty.
  - left. reflexivity.
  - vm_compute. reflexivity.
Defined.

Example empty_docx_included :
  process_file office_world (u "/repo/empty.docx") (u "/repo") office_args
  = Ok (Some ([chr_lf] ++ u "===== FILE: empty.docx (size=4 bytes) =====" ++ [chr_lf]
              ++ u "```" ++ [chr_lf] ++ [chr_lf] ++ u "```" ++ [chr_lf])).
Proof. vm_compute. reflexivity. Qed.

(** ** The rendered chunk *)

Lemma replace_cr_loop (n : nat) (s : str) :
  (length s <= n)%nat ->
  replace_loop n [chr_cr] [chr_lf] s
  = (fun c => if (c =? chr_cr)%N then chr_lf else c) <$> s.
Proof.
  revert s. induction n as [|n IH]; intros s Hn.
  - destruct s; [reflexivity|cbn in Hn; lia].
  - destruct s as [|c rest]; [reflexivity|].
    cbn [replace_loop startswith]. rewrite startswith_nil, andb_true_r.
    cbn [length] in Hn. cbn [fmap list_fmap].
    rewrite N.eqb_sym. destruct (c =? chr_cr)%N.
    + change (drop (length [chr_cr]) (c :: rest)) with rest.
      rewrite IH by lia. reflexivity.
    + rewrite IH by lia. reflexivity.
Qed.

Lemma replace_loop_nil (n : nat) (old new : str) : replace_loop n old new [] = [].
Proof. destruct n; reflexivity. Qed.

Lemma replace_crlf_loop (n : nat) (s : str) :
  (length s <= n)%nat ->
  (fun c => if (c =? chr_cr)%N then chr_lf else c)
    <$> replace_loop n [chr_cr; chr_lf] [chr_lf] s
  = translate_newlines s.
Proof.
  revert s. induction n as [|n IH]; intros s Hn.
  - destruct s; [reflexivity|cbn in Hn; lia].
  - destruct s as [|c rest]; [reflexivity|].
    cbn [length] in Hn.
    cbn [replace_loop startswith translate_newlines].
    rewrite (N.eqb_sym chr_cr c). destruct (c =? chr_cr)%N eqn:Ec.
    + destruct rest as [|d rest'].
      * change (startswith [] [chr_lf]) with false. cbn [andb].
        rewrite replace_loop_nil. cbn [fmap list_fmap]. cbv beta. rewrite Ec. reflexivity.
      * cbn [startswith]. rewrite startswith_nil, andb_true_r.
        rewrite (N.eqb_sym chr_lf d). cbn [length] in Hn.
        destruct (d =? chr_lf)%N.
        -- cbn [andb].
           change (drop (length [chr_cr; chr_lf]) (c :: d :: rest')) with rest'.
           cbn [app fmap list_fmap]. rewrite IH by lia. reflexivity.
        -- cbn [andb fmap list_fmap]. cbv beta.
           rewrite Ec, IH by (cbn [length]; lia). reflexivity.
    + cbn [andb fmap list_fmap]. cbv beta. rewrite Ec, IH by lia. reflexivity.
Qed.

Lemma normalize_newlines_translate (content : str) :
  normalize_newlines content = translate_newlines content.
Proof.
  unfold normalize_newlines, str_replace at 1.
  rewrite replace_cr_loop by lia.
  unfold str_replace. apply replace_crlf_loop. lia.
Qed.

Lemma normalize_newlines_no_cr (content : str) :
  chr_cr ∉ normalize_newlines content.
Proof.
  unfold normalize_newlines, str_replace at 1.
  rewrite replace_cr_loop by lia.
  intros Hin. apply list_elem_of_fmap in Hin as (c & Hc & _).
  destruct (c =? chr_cr)%N eqn:E; [discriminate Hc|].
  apply N.eqb_neq in E. congruence.
Qed.

Lemma translate_newlines_id (s : str) :
  chr_cr ∉ s -> translate_newlines s = s.
Proof.
  induction s as [|c s IH]; intros Hs; [reflexivity|].
  cbn [translate_newlines].
  destruct (c =? chr_cr)%N eqn:E.
  - apply N.eqb_eq in E. subst c. exfalso. apply Hs. left.
  - rewrite IH; [reflexivity|]. intros Hin. apply Hs. right. exact Hin.
Qed.

(** X12: the two replacements applied to the content turn every "\r\n"
    and every remaining "\r" into "\n": the result is the text with
    universal line ends, holds no carriage return, and a content without
    carriage return is left as it is. *)
Theorem newlines_normalized (content : str) :
  normalize_newlines content = translate_newlines content
  /\ (chr_cr ∉ normalize_newlines content)
  /\ (chr_cr ∉ content -> normalize_newlines content = content).
Proof.
  split; [apply normalize_newlines_translate|].
  split; [apply normalize_newlines_no_cr|].
  intros H. rewrite normalize_newlines_translate. apply translate_newlines_id, H.
Qed.

Lemma newlines_normalized_witness :
  normalize_newlines (u "a = 1") = u "a = 1".
Proof.
  apply (proj2 (proj2 (newlines_normalized (u "a = 1")))).
  intros H. apply list_elem_of_In in H. vm_compute in H. intuition discriminate.
Defined.

Lemma fence_for_ext_eq (w : World) (ext : str) :
  fence_for_ext w ext
  = (u "```" ++ default [] (EXT_TO_LANG !! str_lower w ext) ++ [chr_lf],
     [chr_lf] ++ u "```" ++ [chr_lf]).
Proof.
  unfold fence_for_ext.
  destruct (default [] (EXT_TO_LANG !! str_lower w ext)) as [|c lang];
    reflexivity.
Qed.

Lemma render_eq (w : World) (rel : str) (size : Z) (ext content : str) :
  render w rel size ext (Some content)
  = Some ([chr_lf] ++ u "===== FILE: " ++ rel ++ u " (size=" ++ str_of_int size
          ++ u " bytes) =====" ++ [chr_lf]
          ++ u "```" ++ default [] (EXT_TO_LANG !! str_lower w ext) ++ [chr_lf]
          ++ normalize_newlines content ++ [chr_lf] ++ u "```" ++ [chr_lf]).
Proof.
  unfold render. rewrite fence_for_ext_eq. cbv zeta beta iota.
  fold (normalize_newlines content). rewrite <- !app_assoc. reflexivity.
Qed.

(** A chunk comes out of [render] only. *)
Lemma process_file_some w path root args chunk :
  process_file w path root args = Ok (Some chunk) ->
  exists content,
    render w (default path (os_path_relpath w path root))
      (default (-1) (os_path_getsize w path)) (str_lower w (splitext path).2)
      (Some content) = Some chunk.
Proof.
  set (ext := str_lower w (splitext path).2).
  set (size := default (-1) (os_path_getsize w path)).
  set (rel := default path (os_path_relpath w path root)).
  destruct (bool_decide (ext ∈ ALWAYS_SKIP_EXTS)
            && negb (bool_decide (ext ∈ PDF_EXTS) && pdf args && _HAS_PYMUPDF w))
    eqn:H1.
  { unfold process_file. fold ext. rewrite H1. discriminate. }
  destruct ((truthy (only_ext args) && negb (bool_decide (ext ∈ only_ext args)))
            || (truthy (skip_ext args) && bool_decide (ext ∈ skip_ext args)))
    eqn:H2.
  { unfold process_file. fold ext. rewrite H1, H2. discriminate. }
  destruct (negb (max_file_size args =? 0) && (size >? max_file_size args)) eqn:H3.
  { unfold process_file. fold ext. rewrite H1, H2.
    replace (try_except (os_call (os_path_getsize w path)) (Ok (-1)))
      with (Ok (A := Z) size)
      by (unfold size; destruct (os_path_getsize w path); reflexivity).
    cbn [bind]. rewrite H3. discriminate. }
  rewrite (process_file_form w path root args H1 H2 H3). fold ext size rel.
  intros H. apply Ok_inj in H.
  destruct (match (if bool_decide (ext ∈ DOCX_EXTS) && docx args
                   then docx_text w path else None) with
            | Some c => Some c
            | None => if bool_decide (ext ∈ PDF_EXTS) && pdf args
                      then pdf_text w path else None
            end) as [c|]; [eauto|].
  destruct (open_rb_read w path 4096) as [head|]; [|discriminate H].
  destruct (negb (bool_decide (ext ∈ PREFER_TEXT_EXTS)) && is_probably_binary head);
    [discriminate H|].
  destruct (open_r_read w path) as [raw|]; [eauto|discriminate H].
Qed.

Lemma endswith_lf (s : str) : endswith (s ++ [chr_lf]) [chr_lf] = true.
Proof.
  unfold endswith. rewrite rev_app_distr. cbn [rev app startswith].
  rewrite N.eqb_refl. cbn [andb]. apply startswith_nil.
Qed.

(** X13: every chunk [process_file] returns is a header line with the
    relative path (the path itself when no relative path can be formed) and
    the size (-1 when it cannot be read), an opening fence with the language
    of the extension if it has one, a content without carriage return, and
    the closing fence; it ends with a line break, so the driver never writes
    an extra one after it. *)
Theorem chunk_shape (w : World) (path root : str) (args : Args) (chunk : str) :
  process_file w path root args = Ok (Some chunk) ->
  (exists content,
      (chr_cr ∉ content)
      /\ chunk
         = [chr_lf] ++ u "===== FILE: "
           ++ default path (os_path_relpath w path root)
           ++ u " (size=" ++ str_of_int (default (-1) (os_path_getsize w path))
           ++ u " bytes) =====" ++ [chr_lf]
           ++ u "```"
           ++ default [] (EXT_TO_LANG
                            !! str_lower w (str_lower w (splitext path).2))
           ++ [chr_lf] ++ content ++ [chr_lf] ++ u "```" ++ [chr_lf])
  /\ endswith chunk [chr_lf] = true
  /\ forall env st, write_chunk env st chunk = out_write env st chunk.
Proof.
  intros H. destruct (process_file_some _ _ _ _ _ H) as [content Hc].
  rewrite render_eq in Hc. apply (inj Some) in Hc.
  assert (Hend : endswith chunk [chr_lf] = true).
  { rewrite <- Hc. rewrite !app_assoc. apply endswith_lf. }
  split; [|split].
  - exists (normalize_newlines content).
    split; [apply normalize_newlines_no_cr|]. symmetry. exact Hc.
  - exact Hend.
  - intros env st. unfold write_chunk. rewrite Hend. cbn [negb].
    destruct (out_write env st chunk); reflexivity.
Qed.

Lemma chunk_shape_witness :
  endswith ([chr_lf] ++ u "===== FILE: a.py (size=8 bytes) =====" ++ [chr_lf]
            ++ u "```python" ++ [chr_lf] ++ u "print(1)" ++ [chr_lf]
            ++ u "```" ++ [chr_lf]) [chr_lf] = true.
Proof.
  apply (chunk_shape demo_world (u "/repo/a.py") (u "/repo") demo_args).
  vm_compute. reflexivity.
Defined.

(** ** Path enumerator, in detail *)

Lemma iter_files_in_entry (ih : bool) (ign : gset str) (fr : forest)
  (dirpath d p : str) (sub : node) :
  (d, sub) ∈ entries fr -> keep_dir ih ign d = true ->
  p ∈ iter_files_at ih ign (path_join dirpath d) sub ->
  p ∈ iter_files_in ih ign dirpath fr.
Proof.
  induction fr as [|d' n rest IH]; intros Hin Hk Hp; cbn [entries] in Hin.
  - inversion Hin.
  - cbn [iter_files_in]. apply elem_of_app.
    apply elem_of_cons in Hin as [Heq|Hin].
    + injection Heq as <- <-. left. rewrite Hk. exact Hp.
    + right. apply IH; assumption.
Qed.

Lemma iter_files_at_complete (ih : bool) (ign : gset str) (t : node)
  (ds : list str) (f : str) :
  located t ds f ->
  Forall (fun d => keep_dir ih ign d = true) ds -> keep_file ih f = true ->
  forall dirpath,
    path_join (foldl path_join dirpath ds) f ∈ iter_files_at ih ign dirpath t.
Proof.
  intros Hloc. induction Hloc as [dirnames filenames f Hf
                                 |dirnames filenames d sub ds f Hin Hloc IH];
    intros Hds Hkf dirpath; cbn [iter_files_at foldl].
  - apply elem_of_app. left. apply list_elem_of_fmap. exists f.
    split; [reflexivity|]. apply list_elem_of_In, filter_In.
    split; [apply list_elem_of_In; exact Hf|exact Hkf].
  - inversion Hds as [|? ? Hd Hds']; subst.
    apply elem_of_app. right.
    apply (iter_files_in_entry ih ign dirnames dirpath d _ sub Hin Hd).
    apply IH; assumption.
Qed.

Lemma iter_files_at_sound (ih : bool) (ign : gset str) (t : node) :
  forall (dirpath p : str),
    p ∈ iter_files_at ih ign dirpath t ->
    exists ds f, located t ds f
                 /\ p = path_join (foldl path_join dirpath ds) f
                 /\ Forall (fun d => keep_dir ih ign d = true) ds
                 /\ keep_file ih f = true.
Proof.
  induction t as [dirnames IHf filenames| | | |d n IHn rest IHrest]
    using node_forest_ind
    with (P0 := fun fr => forall (dirpath p : str),
      p ∈ iter_files_in ih ign dirpath fr ->
      exists d sub ds f, (d, sub) ∈ entries fr /\ keep_dir ih ign d = true
                   /\ located sub ds f
                   /\ p = path_join (foldl path_join (path_join dirpath d) ds) f
                   /\ Forall (fun d => keep_dir ih ign d = true) ds
                   /\ keep_file ih f = true);
    intros dirpath p Hp; cbn [iter_files_at iter_files_in] in Hp.
  - apply elem_of_app in Hp as [Hp|Hp].
    + apply list_elem_of_fmap in Hp as (f & -> & Hf).
      apply list_elem_of_In, filter_In in Hf as [Hf Hk]. apply list_elem_of_In in Hf.
      exists [], f. split; [constructor; exact Hf|]. split; [reflexivity|].
      split; [constructor|exact Hk].
    + destruct (IHf _ _ Hp) as (d & sub & ds & f & Hin & Hd & Hloc & -> & Hall & Hk).
      exists (d :: ds), f. split; [econstructor; eassumption|].
      split; [reflexivity|]. split; [constructor; assumption|exact Hk].
  - inversion Hp.
  - inversion Hp.
  - inversion Hp.
  - apply elem_of_app in Hp as [Hp|Hp].
    + destruct (keep_dir ih ign d) eqn:Hk; [|inversion Hp].
      destruct (IHn _ _ Hp) as (ds & f & Hloc & -> & Hall & Hkf).
      exists d, n, ds, f. split; [left|]. auto.
    + destruct (IHrest _ _ Hp) as (d' & sub & ds & f & Hin & Hrest).
      exists d', sub, ds, f. split; [right; exact Hin|exact Hrest].
Qed.

Lemma keep_dir_iff (ih : bool) (ign : gset str) (d : str) :
  keep_dir ih ign d = true
  <-> (ih = true \/ startswith d (u ".") = false) /\ (d ∉ ign).
Proof.
  unfold keep_dir. destruct ih; cbn [negb andb].
  - case_bool_decide as Hd; split; try discriminate; intuition.
  - destruct (startswith d (u ".")).
    + split; [discriminate|]. intros [[H|H] _]; discriminate H.
    + case_bool_decide as Hd; split; try discriminate; intuition.
Qed.

Lemma keep_file_iff (ih : bool) (f : str) :
  keep_file ih f = true <-> ih = true \/ startswith f (u ".") = false.
Proof.
  unfold keep_file. destruct ih; cbn [negb andb]; [intuition|].
  destruct (startswith f (u ".")); [|intuition].
  split; [discriminate|]. intros [H|H]; discriminate H.
Qed.

(** X14: the paths [iter_files] yields are exactly the paths of the file
    entries of the walked tree that are reached through directories whose
    name is not in the ignore set and, unless hidden entries are included,
    does not start with a dot, and whose own name, unless hidden entries
    are included, does not start with a dot. *)
Theorem iter_files_exactly (w : World) (root : str) (ih : bool)
  (ign : gset str) (p : str) :
  p ∈ iter_files w root ih ign
  <-> exists ds f,
        located (os_walk w root) ds f
        /\ p = path_join (foldl path_join root ds) f
        /\ Forall (fun d => (ih = true \/ startswith d (u ".") = false)
                            /\ (d ∉ ign)) ds
        /\ (ih = true \/ startswith f (u ".") = false).
Proof.
  unfold iter_files. split.
  - intros Hp.
    destruct (iter_files_at_sound ih ign _ _ _ Hp) as (ds & f & Hloc & -> & Hds & Hf).
    exists ds, f. split; [exact Hloc|]. split; [reflexivity|].
    split; [|apply keep_file_iff; exact Hf].
    eapply Forall_impl; [exact Hds|]. intros d Hd. apply keep_dir_iff. exact Hd.
  - intros (ds & f & Hloc & -> & Hds & Hf).
    apply iter_files_at_complete; [exact Hloc| |apply keep_file_iff; exact Hf].
    eapply Forall_impl; [exact Hds|]. intros d Hd. apply keep_dir_iff. exact Hd.
Qed.

Lemma iter_files_exactly_witness :
  u "/repo/src/big.txt" ∈ iter_files demo_world (u "/repo") false DEFAULT_IGNORED_DIRS.
Proof.
  apply (proj2 (iter_files_exactly demo_world (u "/repo") false
                  DEFAULT_IGNORED_DIRS (u "/repo/src/big.txt"))).
  exists [u "src"], (u "big.txt").
  split.
  - change (os_walk demo_world (u "/repo")) with demo_tree.
    eapply located_below; [right; left|]. apply located_here. left.
  - split; [vm_compute; reflexivity|]. split.
    + constructor; [|constructor]. split; [right; vm_compute; reflexivity|].
      apply (bool_decide_unpack _). vm_compute. exact I.
    + right. vm_compute. reflexivity.
Defined.

Lemma filter_sublist {A : Type} (f g : A -> bool) (l : list A) :
  (forall x, f x = true -> g x = true) ->
  sublist (List.filter f l) (List.filter g l).
Proof.
  intros Hfg. induction l as [|x l IH]; cbn [List.filter]; [constructor|].
  destruct (f x) eqn:Ef.
  - rewrite (Hfg _ Ef). apply sublist_skip. exact IH.
  - destruct (g x); [apply sublist_cons|]; exact IH.
Qed.

Lemma iter_files_at_sublist (ih ih' : bool) (ign ign' : gset str) (t : node) :
  (forall d, keep_dir ih' ign' d = true -> keep_dir ih ign d = true) ->
  (forall f, keep_file ih' f = true -> keep_file ih f = true) ->
  forall dirpath,
    sublist (iter_files_at ih' ign' dirpath t) (iter_files_at ih ign dirpath t).
Proof.
  intros Hd Hf.
  induction t as [dirnames IHf filenames| | | |d n IHn rest IHrest]
    using node_forest_ind
    with (P0 := fun fr => forall dirpath,
      sublist (iter_files_in ih' ign' dirpath fr) (iter_files_in ih ign dirpath fr));
    intros dirpath; cbn [iter_files_at iter_files_in]; try constructor.
  - apply sublist_app; [|apply IHf].
    apply fmap_sublist, filter_sublist, Hf.
  - apply sublist_app; [|apply IHrest].
    destruct (keep_dir ih' ign' d) eqn:Hk.
    + rewrite (Hd _ Hk). apply IHn.
    + apply sublist_nil_l.
Qed.

(** X15: ignoring more directory names, or leaving hidden entries out,
    only removes paths from the enumeration; the paths that remain keep
    their order. *)
Theorem iter_files_monotone (w : World) (root : str) (ih ih' : bool)
  (ign ign' : gset str) :
  ign ⊆ ign' -> (ih' = true -> ih = true) ->
  sublist (iter_files w root ih' ign') (iter_files w root ih ign).
Proof.
  intros Hsub Hih. unfold iter_files. apply iter_files_at_sublist.
  - intros d Hk. apply keep_dir_iff in Hk as [Hh Hn]. apply keep_dir_iff.
    split; [destruct Hh as [Hh|Hh]; [left; exact (Hih Hh)|right; exact Hh]|].
    intros Hin. apply Hn, Hsub, Hin.
  - intros f Hk. apply keep_file_iff in Hk. apply keep_file_iff.
    destruct Hk as [Hh|Hh]; [left; exact (Hih Hh)|right; exact Hh].
Qed.

Lemma iter_files_monotone_witness :
  sublist (iter_files demo_world (u "/repo") false DEFAULT_IGNORED_DIRS)
          (iter_files demo_world (u "/repo") true ∅).
Proof.
  apply iter_files_monotone.
  - apply empty_subseteq.
  - discriminate.
Defined.

(** ** The header, line by line *)

Lemma split_lines_single (l : str) : chr_lf ∉ l -> split_lines l = [l].
Proof.
  induction l as [|c l IH]; intros Hl; [reflexivity|].
  cbn [split_lines]. destruct (c =? chr_lf)%N eqn:E.
  - apply N.eqb_eq in E. subst c. exfalso. apply Hl. left.
  - rewrite IH by (intros H; apply Hl; right; exact H). reflexivity.
Qed.

Lemma split_lines_join (ls : list str) :
  ls <> [] -> Forall (fun l => chr_lf ∉ l) ls ->
  split_lines (str_join [chr_lf] ls) = ls.
Proof.
  induction ls as [|l ls IH]; intros Hne Hall; [congruence|].
  inversion Hall as [|? ? Hl Hls]; subst.
  destruct ls as [|l' ls].
  - cbn [str_join]. apply split_lines_single, Hl.
  - rewrite str_join_cons by discriminate.
    change ([chr_lf] ++ ?x) with (chr_lf :: x).
    rewrite split_lines_no_lf by exact Hl. f_equal. apply IH; [discriminate|exact Hls].
Qed.

Lemma solid_indented (t : str) :
  solid t ->
  blank_to_empty (u "    " ++ t) = u "    " ++ t
  /\ leading_ws (u "    " ++ t) = u "    "
  /\ after_ws (u "    " ++ t) <> []
  /\ strip_margin (u "    ") (u "    " ++ t) = t.
Proof.
  intros (c & t' & -> & Hc).
  change (u "    ") with [chr_space; chr_space; chr_space; chr_space].
  unfold blank_to_empty, strip_margin.
  cbn [app forallb leading_ws after_ws startswith length drop].
  change (is_ws chr_space) with true. rewrite Hc, !N.eqb_refl.
  cbn [andb]. rewrite ?startswith_nil.
  repeat split; discriminate.
Qed.

Lemma indented_blank (texts : list str) :
  Forall solid texts ->
  blank_to_empty <$> ((fun t => u "    " ++ t) <$> texts)
  = (fun t => u "    " ++ t) <$> texts.
Proof.
  induction 1 as [|t ts Ht _ IH]; [reflexivity|].
  cbn [fmap list_fmap]. rewrite (proj1 (solid_indented t Ht)). f_equal.
  exact IH.
Qed.

Lemma indented_indents (texts : list str) :
  Forall solid texts ->
  indents_of ((fun t => u "    " ++ t) <$> texts) = (fun _ => u "    ") <$> texts.
Proof.
  unfold indents_of. induction 1 as [|t ts Ht _ IH]; [reflexivity|].
  cbn [fmap list_fmap List.filter].
  destruct (solid_indented t Ht) as (_ & Hl & Ha & _).
  rewrite (bool_decide_eq_false_2 _ Ha). cbn [negb fmap list_fmap].
  rewrite Hl. f_equal. exact IH.
Qed.

Lemma margin_of_equal_indents (l : list str) :
  fold_left margin_step ((fun _ => u "    ") <$> l) (Some (u "    "))
  = Some (u "    ").
Proof.
  induction l as [|x l IH]; [reflexivity|]. cbn [fmap list_fmap fold_left].
  change (margin_step (Some (u "    ")) (u "    ")) with (Some (u "    ")).
  exact IH.
Qed.

Lemma indented_strip (texts : list str) :
  Forall solid texts ->
  strip_margin (u "    ") <$> ((fun t => u "    " ++ t) <$> texts) = texts.
Proof.
  induction 1 as [|t ts Ht _ IH]; [reflexivity|].
  cbn [fmap list_fmap].
  rewrite (proj2 (proj2 (proj2 (solid_indented t Ht)))). f_equal. exact IH.
Qed.

Lemma dedent_lines_indented (texts : list str) :
  texts <> [] -> Forall solid texts ->
  dedent_lines ([] :: ((fun t => u "    " ++ t) <$> texts) ++ [u "    "])
  = [] :: texts ++ [[]].
Proof.
  intros Hne Hall.
  unfold dedent_lines. cbv zeta.
  rewrite fmap_cons, fmap_app, (indented_blank texts Hall).
  change (blank_to_empty []) with (@nil N).
  change (blank_to_empty <$> [u "    "]) with [@nil N].
  change (indents_of ([] :: ?l)) with (indents_of l).
  rewrite indents_of_app, (indented_indents texts Hall).
  change (indents_of [[]]) with (@nil str). rewrite app_nil_r.
  destruct texts as [|t ts]; [congruence|].
  cbn [fmap list_fmap fold_left].
  change (margin_step None (u "    ")) with (Some (u "    ")).
  rewrite margin_of_equal_indents.
  change (u "    ") with [chr_space; chr_space; chr_space; chr_space] at 1.
  cbv iota.
  change [chr_space; chr_space; chr_space; chr_space] with (u "    ").
  rewrite fmap_app.
  change (strip_margin (u "    ") []) with (@nil N).
  change (strip_margin (u "    ") <$> [[]]) with [@nil N].
  change ((u "    " ++ t) :: ((fun t => u "    " ++ t) <$> ts))
    with ((fun t => u "    " ++ t) <$> (t :: ts)).
  rewrite (indented_strip (t :: ts) Hall). reflexivity.
Qed.

Lemma u_String (a : ascii) (s : string) : u (String a s) = N_of_ascii a :: u s.
Proof. reflexivity. Qed.

Lemma string_of_uint_no_lf (d : Decimal.uint) :
  chr_lf ∉ u (NilEmpty.string_of_uint d).
Proof.
  induction d; cbn [NilEmpty.string_of_uint]; rewrite ?u_String;
    try (intros H; apply elem_of_cons in H as [H|H];
         [discriminate H|exact (IHd H)]).
  intros H. inversion H.
Qed.

Lemma str_of_int_no_lf (n : Z) : chr_lf ∉ str_of_int n.
Proof.
  unfold str_of_int, NilZero.string_of_int, NilZero.string_of_uint.
  destruct (Z.to_int n) as [d|d].
  - destruct d; try apply string_of_uint_no_lf.
    intros H. apply list_elem_of_In in H. vm_compute in H. intuition discriminate.
  - rewrite u_String. intros H. apply elem_of_cons in H as [H|H]; [discriminate H|].
    revert H. destruct d; try apply string_of_uint_no_lf.
    intros H. apply list_elem_of_In in H. vm_compute in H. intuition discriminate.
Qed.

Lemma str_of_bool_no_lf (b : bool) : chr_lf ∉ str_of_bool b.
Proof.
  intros H. apply list_elem_of_In in H.
  destruct b; vm_compute in H; intuition discriminate.
Qed.

Lemma str_join_no_lf (sep : str) (parts : list str) :
  chr_lf ∉ sep -> Forall (fun p => chr_lf ∉ p) parts ->
  chr_lf ∉ str_join sep parts.
Proof.
  intros Hsep Hall. induction Hall as [|p ps Hp Hps IH]; [intros H; inversion H|].
  destruct ps as [|q ps]; [exact Hp|].
  rewrite str_join_cons by discriminate.
  intros H. apply elem_of_app in H as [H|H]; [exact (Hp H)|].
  apply elem_of_app in H as [H|H]; [exact (Hsep H)|exact (IH H)].
Qed.

Lemma insert_sorted_elem (x y : str) (l : list str) :
  y ∈ insert_sorted x l -> y = x \/ y ∈ l.
Proof.
  induction l as [|z l IH]; cbn [insert_sorted]; intros H.
  - apply list_elem_of_singleton in H. left. exact H.
  - destruct (str_leb x z).
    + apply elem_of_cons in H as [H|H]; [left; exact H|right; exact H].
    + apply elem_of_cons in H as [H|H]; [right; subst y; left|].
      destruct (IH H) as [Hx|Hl]; [left; exact Hx|right; right; exact Hl].
Qed.

Lemma sorted_elem (y : str) (l : list str) : y ∈ sorted l -> y ∈ l.
Proof.
  unfold sorted. induction l as [|x l IH]; cbn [fold_right]; intros H;
    [exact H|].
  destruct (insert_sorted_elem _ _ _ H) as [->|Hl]; [left|right; exact (IH Hl)].
Qed.

Lemma joined_set_no_lf (s : gset str) :
  (forall x, x ∈ s -> chr_lf ∉ x) ->
  chr_lf ∉ str_join (u ", ") (sorted (elements s)).
Proof.
  intros Hs. apply str_join_no_lf.
  - intros H. apply list_elem_of_In in H. vm_compute in H. intuition discriminate.
  - apply Forall_forall. intros x Hx. apply Hs, elem_of_elements, sorted_elem, Hx.
Qed.

Lemma join_or_None_no_lf (s : gset str) :
  (forall x, x ∈ s -> chr_lf ∉ x) -> chr_lf ∉ join_or_None s.
Proof.
  intros Hs. unfold join_or_None. destruct (truthy s).
  - apply joined_set_no_lf, Hs.
  - intros H. apply list_elem_of_In in H. vm_compute in H. intuition discriminate.
Qed.

Lemma literal_line (prefix : string) (value : str) :
  chr_lf ∉ u prefix -> chr_lf ∉ value ->
  (exists c l', u prefix = c :: l' /\ is_ws c = false) ->
  (chr_lf ∉ u "    " ++ u prefix ++ value) /\ solid (u prefix ++ value).
Proof.
  intros Hp Hv (c & l' & Hc & Hws). split.
  - intros H. apply elem_of_app in H as [H|H].
    + apply list_elem_of_In in H. vm_compute in H. intuition discriminate.
    + apply elem_of_app in H as [H|H]; [exact (Hp H)|exact (Hv H)].
  - exists c, (l' ++ value). rewrite Hc. split; [reflexivity|exact Hws].
Qed.

Lemma str_join_snoc_empty (sep : str) (parts : list str) :
  parts <> [] -> str_join sep (parts ++ [[]]) = str_join sep parts ++ sep.
Proof.
  induction parts as [|p ps IH]; intros Hne; [congruence|].
  destruct ps as [|q ps].
  - cbn [app str_join]. rewrite app_nil_r. reflexivity.
  - change ((p :: q :: ps) ++ [[]]) with (p :: ((q :: ps) ++ [[]])).
    rewrite !str_join_cons by discriminate.
    rewrite IH by discriminate. rewrite <- !app_assoc. reflexivity.
Qed.

Lemma header_literal_lines (w : World) (now root : str) (args : Args) :
  header_literal w now root args
  = str_join [chr_lf]
      ([] :: ((fun t => u "    " ++ t) <$> header_lines w now root args)
          ++ [u "    "]).
Proof.
  unfold header_literal, header_lines, nl4.
  cbn [fmap list_fmap app str_join]. rewrite <- !app_assoc. reflexivity.
Qed.

Ltac constant_line :=
  split;
  [ intros H; apply list_elem_of_In in H; vm_compute in H; intuition discriminate
  | eexists _, _; split; reflexivity ].

Ltac prefixed_line :=
  apply literal_line;
  [ intros H; apply list_elem_of_In in H; vm_compute in H; intuition discriminate
  | try assumption
  | eexists _, _; split; reflexivity ].

Lemma header_lines_good (w : World) (now root : str) (args : Args) :
  chr_lf ∉ os_path_abspath w root -> chr_lf ∉ now ->
  (forall x, x ∈ ignore_dirs args -> chr_lf ∉ x) ->
  (forall x, x ∈ only_ext args -> chr_lf ∉ x) ->
  (forall x, x ∈ skip_ext args -> chr_lf ∉ x) ->
  Forall (fun t => (chr_lf ∉ u "    " ++ t) /\ solid t)
    (header_lines w now root args).
Proof.
  intros Hroot Hnow Hign Honly Hskip. unfold header_lines.
  repeat apply Forall_cons_2; try apply Forall_nil_2.
  - constant_line.
  - constant_line.
  - prefixed_line.
  - prefixed_line.
  - prefixed_line. apply str_of_bool_no_lf.
  - prefixed_line. destruct (negb (max_file_size args =? 0)).
    + apply str_of_int_no_lf.
    + intros H. apply list_elem_of_In in H. vm_compute in H. intuition discriminate.
  - prefixed_line. apply str_of_bool_no_lf.
  - prefixed_line. apply str_of_bool_no_lf.
  - prefixed_line. apply joined_set_no_lf, Hign.
  - prefixed_line. apply join_or_None_no_lf, Honly.
  - prefixed_line. apply join_or_None_no_lf, Hskip.
  - constant_line.
Qed.

(** X18: when neither the root path, nor the time stamp, nor a name in the
    ignore set or in the two extension lists holds a line break, the header
    is an empty line, the twelve lines of the block without their
    indentation, and an empty line. *)
Theorem header_text (w : World) (now root : str) (args : Args) :
  chr_lf ∉ os_path_abspath w root -> chr_lf ∉ now ->
  (forall x, x ∈ ignore_dirs args -> chr_lf ∉ x) ->
  (forall x, x ∈ only_ext args -> chr_lf ∉ x) ->
  (forall x, x ∈ skip_ext args -> chr_lf ∉ x) ->
  write_header w now root args
  = [chr_lf] ++ str_join [chr_lf] (header_lines w now root args)
    ++ [chr_lf; chr_lf].
Proof.
  intros Hroot Hnow Hign Honly Hskip.
  pose proof (header_lines_good w now root args Hroot Hnow Hign Honly Hskip)
    as Hgood.
  assert (Hne : header_lines w now root args <> []) by discriminate.
  unfold write_header, dedent. rewrite header_literal_lines.
  rewrite split_lines_join.
  - rewrite dedent_lines_indented.
    + rewrite str_join_cons by discriminate.
      rewrite str_join_snoc_empty by exact Hne.
      cbn [app]. rewrite <- !app_assoc. reflexivity.
    + exact Hne.
    + eapply Forall_impl; [exact Hgood|]. intros t [_ Ht]. exact Ht.
  - discriminate.
  - apply Forall_cons_2; [intros H; inversion H|].
    apply Forall_app. split.
    + apply Forall_fmap. eapply Forall_impl; [exact Hgood|].
      intros t [Ht _]. exact Ht.
    + apply Forall_cons_2; [|apply Forall_nil_2].
      intros H. apply list_elem_of_In in H. vm_compute in H. intuition discriminate.
Qed.

Lemma header_text_witness :
  write_header demo_world demo_now (u "/repo") demo_args
  = [chr_lf] ++ str_join [chr_lf] (header_lines demo_world demo_now (u "/repo") demo_args)
    ++ [chr_lf; chr_lf].
Proof.
  assert (Hset : forall s : gset str,
             forallb (fun x => negb (bool_decide (chr_lf ∈ x))) (elements s) = true ->
             forall x, x ∈ s -> chr_lf ∉ x).
  { intros s Hs x Hx Hin. rewrite forallb_forall in Hs.
    apply elem_of_elements, list_elem_of_In in Hx. specialize (Hs _ Hx).
    rewrite (bool_decide_eq_true_2 _ Hin) in Hs. discriminate Hs. }
  apply header_text.
  - intros H. apply list_elem_of_In in H. vm_compute in H. intuition discriminate.
  - intros H. apply list_elem_of_In in H. vm_compute in H. intuition discriminate.
  - apply Hset. vm_compute. reflexivity.
  - apply Hset. vm_compute. reflexivity.
  - apply Hset. vm_compute. reflexivity.
Defined.

(** ** Options and tables *)

(** X19: the allow-list and the deny-list hold exactly the lower-cased
    extensions given on the command line, each with a leading dot added
    when it has none; order and repetitions do not matter. *)
Theorem normalize_exts_spec (w : World) (exts : list str) (x : str) :
  x ∈ normalize_exts w exts
  <-> exists e, e ∈ exts
        /\ x = str_lower w (if startswith e (u ".") then e else u "." ++ e).
Proof.
  unfold normalize_exts. cbv zeta. rewrite elem_of_map. split.
  - intros (d & -> & Hd).
    apply elem_of_list_to_set, list_elem_of_fmap in Hd as (e & -> & He).
    exists e. split; [exact He|reflexivity].
  - intros (e & He & ->). eexists. split; [reflexivity|].
    apply elem_of_list_to_set, list_elem_of_fmap. exists e. split; [reflexivity|exact He].
Qed.

Lemma normalize_exts_spec_witness :
  u ".py" ∈ normalize_exts demo_world [u "MD"; u "Py"].
Proof.
  apply (proj2 (normalize_exts_spec demo_world [u "MD"; u "Py"] (u ".py"))).
  exists (u "Py"). split; [right; left|]. vm_compute. reflexivity.
Defined.

(** X20: the tables agree with each other: every extension that has a
    language tag is a prefer-text extension; no prefer-text extension is
    always skipped or handled by an extractor; [.docx] is not always
    skipped; and [.pdf] is always skipped unless it is extracted. *)
Theorem tables_consistent :
  dom EXT_TO_LANG ⊆ PREFER_TEXT_EXTS
  /\ PREFER_TEXT_EXTS ## ALWAYS_SKIP_EXTS
  /\ PREFER_TEXT_EXTS ## DOCX_EXTS ∪ PDF_EXTS
  /\ DOCX_EXTS ## ALWAYS_SKIP_EXTS
  /\ PDF_EXTS ⊆ ALWAYS_SKIP_EXTS.
Proof.
  repeat split; apply (bool_decide_unpack _); vm_compute; exact I.
Qed.

(** ** Files of unknown type *)

Lemma process_file_filtered w path root args :
  bool_decide (str_lower w (splitext path).2 ∈ ALWAYS_SKIP_EXTS)
  && negb (bool_decide (str_lower w (splitext path).2 ∈ PDF_EXTS)
           && pdf args && _HAS_PYMUPDF w) = true
  \/ (truthy (only_ext args)
      && negb (bool_decide (str_lower w (splitext path).2 ∈ only_ext args)))
     || (truthy (skip_ext args)
         && bool_decide (str_lower w (splitext path).2 ∈ skip_ext args)) = true
  \/ negb (max_file_size args =? 0)
     && (default (-1) (os_path_getsize w path) >? max_file_size args) = true ->
  process_file w path root args = Ok None.
Proof.
  intros H. unfold process_file.
  destruct (bool_decide (_ ∈ ALWAYS_SKIP_EXTS) && _) eqn:H1; [reflexivity|].
  destruct H as [H|H]; [discriminate H|].
  destruct (_ || _) eqn:H2; [reflexivity|].
  destruct H as [H|H]; [discriminate H|].
  replace (try_except (os_call (os_path_getsize w path)) (Ok (-1)))
    with (Ok (A := Z) (default (-1) (os_path_getsize w path)))
    by (destruct (os_path_getsize w path); reflexivity).
  cbn [bind]. rewrite H. reflexivity.
Qed.

(** X21: a file whose extension is neither a prefer-text one nor [.docx]
    nor [.pdf], and whose head looks binary, is excluded, whatever the
    options and the libraries. *)
Theorem binary_head_excluded (w : World) (path root : str) (args : Args)
  (head : bytes) :
  str_lower w (splitext path).2 ∉ PREFER_TEXT_EXTS ->
  str_lower w (splitext path).2 ∉ DOCX_EXTS ∪ PDF_EXTS ->
  open_rb_read w path 4096 = Some head ->
  is_probably_binary head = true ->
  process_file w path root args = Ok None.
Proof.
  intros Hp Hx Hhead Hbin.
  destruct (bool_decide (str_lower w (splitext path).2 ∈ ALWAYS_SKIP_EXTS)
            && negb (bool_decide (str_lower w (splitext path).2 ∈ PDF_EXTS)
                     && pdf args && _HAS_PYMUPDF w)) eqn:H1;
    [apply process_file_filtered; left; exact H1|].
  destruct ((truthy (only_ext args)
             && negb (bool_decide (str_lower w (splitext path).2 ∈ only_ext args)))
            || (truthy (skip_ext args)
                && bool_decide (str_lower w (splitext path).2 ∈ skip_ext args)))
    eqn:H2; [apply process_file_filtered; right; left; exact H2|].
  destruct (negb (max_file_size args =? 0)
            && (default (-1) (os_path_getsize w path) >? max_file_size args))
    eqn:H3; [apply process_file_filtered; right; right; exact H3|].
  rewrite (process_file_form w path root args H1 H2 H3).
  rewrite (bool_decide_eq_false_2 (_ ∈ DOCX_EXTS)) by (intros H; apply Hx, elem_of_union; left; exact H).
  rewrite (bool_decide_eq_false_2 (_ ∈ PDF_EXTS))
    by (intros H; apply Hx, elem_of_union; right; exact H).
  rewrite (bool_decide_eq_false_2 _ Hp), Hhead, Hbin. reflexivity.
Qed.

Lemma binary_head_excluded_witness :
  process_file demo_world (u "/repo/b.png") (u "/repo") demo_args = Ok None.
Proof.
  apply (binary_head_excluded demo_world (u "/repo/b.png") (u "/repo") demo_args
           [x89; x50; x00; x47]).
  - apply (bool_decide_unpack _). vm_compute. exact I.
  - apply (bool_decide_unpack _). vm_compute. exact I.
  - vm_compute. reflexivity.
  - vm_compute. reflexivity.
Defined.
(** * The size ceiling *)

(** With the ceiling at 0 a file whose size can be read is included
    exactly when it passes the other checks. *)
Lemma unlimited_inclusion w path root args :
  max_file_size args = 0 ->
  passes_other_filters w path args = true
  <-> exists chunk, process_file w path root args = Ok (Some chunk).
Proof.
  intros Hmax. unfold passes_other_filters. cbv zeta.
  set (ext := str_lower w (splitext path).2).
  set (skipped := bool_decide (ext ∈ ALWAYS_SKIP_EXTS)
                  && negb (bool_decide (ext ∈ PDF_EXTS) && pdf args && _HAS_PYMUPDF w)).
  set (listed := (truthy (only_ext args) && negb (bool_decide (ext ∈ only_ext args)))
                 || (truthy (skip_ext args) && bool_decide (ext ∈ skip_ext args))).
  destruct skipped eqn:Hs.
  { cbn [negb andb]. split; [discriminate|]. intros [chunk Hc].
    rewrite (process_file_filtered w path root args) in Hc; [discriminate Hc|].
    left. exact Hs. }
  destruct listed eqn:Hl.
  { cbn [negb andb]. split; [discriminate|]. intros [chunk Hc].
    rewrite (process_file_filtered w path root args) in Hc; [discriminate Hc|].
    right. left. exact Hl. }
  cbn [negb andb].
  rewrite (process_file_form w path root args Hs Hl (size_pass args _ (or_introl Hmax))).
  fold ext.
  destruct (match (if bool_decide (ext ∈ DOCX_EXTS) && docx args
                   then docx_text w path else None) with
            | Some c => Some c
            | None => if bool_decide (ext ∈ PDF_EXTS) && pdf args
                      then pdf_text w path else None
            end) as [c|].
  { split; [|reflexivity]. intros _.
    destruct (render_some w (default path (os_path_relpath w path root))
                (default (-1) (os_path_getsize w path)) ext c) as [chunk ->].
    eauto. }
  destruct (open_rb_read w path 4096) as [head|].
  2:{ split; [discriminate|]. intros [chunk Hc]. discriminate Hc. }
  destruct (negb (bool_decide (ext ∈ PREFER_TEXT_EXTS)) && is_probably_binary head).
  { cbn [negb andb]. split; [discriminate|]. intros [chunk Hc]. discriminate Hc. }
  cbn [negb andb].
  destruct (open_r_read w path) as [raw|].
  - split; [|intros _; apply bool_decide_eq_true_2; eauto].
    intros _.
    destruct (render_some w (default path (os_path_relpath w path root))
                (default (-1) (os_path_getsize w path)) ext
                (translate_newlines (default (decode_latin1 raw) (decode_utf8 Strict raw))))
      as [chunk ->].
    eauto.
  - split.
    + intros H. apply bool_decide_eq_true_1 in H. destruct H as [x Hx]. discriminate Hx.
    + intros [chunk Hc]. discriminate Hc.
Qed.

(** C6: a file larger than a non-zero ceiling is excluded; with the ceiling
    at 0 the same file is treated as with any ceiling it does not exceed,
    and it is included exactly when it passes the other checks of
    [process_file]: the size check excludes nothing. *)
Theorem size_ceiling (w : World) (path root : str) (args : Args) (size c : Z) :
  os_path_getsize w path = Some size ->
  c <> 0 -> size > c ->
  process_file w path root (set_max_file_size args c) = Ok None
  /\ (forall c', size <= c' ->
        process_file w path root (set_max_file_size args 0)
        = process_file w path root (set_max_file_size args c'))
  /\ (passes_other_filters w path args = true
      <-> exists chunk,
            process_file w path root (set_max_file_size args 0)
            = Ok (Some chunk)).
Proof.
  intros Hsize Hc Hgt. split; [|split].
  - unfold process_file. cbn [set_max_file_size max_file_size pdf docx only_ext skip_ext].
    destruct (bool_decide (_ ∈ ALWAYS_SKIP_EXTS) && _); [reflexivity|].
    destruct (_ || _); [reflexivity|].
    rewrite Hsize. cbn [os_call try_except bind].
    replace (c =? 0) with false by (symmetry; apply Z.eqb_neq; exact Hc).
    replace (size >? c) with true by (symmetry; apply Z.gtb_gt; exact Hgt).
    reflexivity.
  - intros c' Hle. unfold process_file.
    cbn [set_max_file_size max_file_size pdf docx only_ext skip_ext].
    destruct (bool_decide (_ ∈ ALWAYS_SKIP_EXTS) && _); [reflexivity|].
    destruct (_ || _); [reflexivity|].
    rewrite Hsize. cbn [os_call try_except bind].
    replace (size >? c') with false by (symmetry; rewrite Z.gtb_ltb; apply Z.ltb_ge; exact Hle).
    rewrite andb_false_r. reflexivity.
  - rewrite <- (unlimited_inclusion w path root (set_max_file_size args 0) eq_refl).
    reflexivity.
Qed.

Lemma size_ceiling_witness :
  process_file demo_world (u "/repo/src/big.txt") (u "/repo")
    (set_max_file_size demo_args 5) = Ok None
  /\ exists chunk,
       process_file demo_world (u "/repo/src/big.txt") (u "/repo")
         (set_max_file_size demo_args 0) = Ok (Some chunk).
Proof.
  destruct (size_ceiling demo_world (u "/repo/src/big.txt") (u "/repo")
              demo_args 10 5) as (Hout & _ & Hin).
  - vm_compute. reflexivity.
  - discriminate.
  - reflexivity.
  - split; [exact Hout|]. apply Hin. vm_compute. reflexivity.
Defined.

(** * The run as a whole *)

(** ** Writing to the output *)

Lemma encodable_app (a b : str) :
  encodable (a ++ b) = encodable a && encodable b.
Proof. unfold encodable. apply forallb_app. Qed.

Lemma encodable_concat (l : list str) :
  encodable (concat l) = forallb encodable l.
Proof.
  induction l as [|a l IH]; cbn [concat forallb]; [reflexivity|].
  rewrite encodable_app, IH. reflexivity.
Qed.

Lemma out_write_ok env st s st' :
  out_write env st s = Ok st' ->
  st' = {| out := out st ++ s; count_total := count_total st;
           count_included := count_included st |}
  /\ encodable s = true.
Proof.
  unfold out_write. destruct (encodable s); cbn [negb]; [|discriminate].
  destruct (device_takes env (out st ++ s)); cbn [negb]; [|discriminate].
  intros H. injection H as <-. split; reflexivity.
Qed.


Lemma out_write_taken env st s :
  encodable s = true -> device_takes env (out st ++ s) = true ->
  out_write env st s
  = Ok {| out := out st ++ s; count_total := count_total st;
          count_included := count_included st |}.
Proof. intros He Hd. unfold out_write. rewrite He, Hd. reflexivity. Qed.

Lemma out_write_surrogate env st s :
  encodable s = false -> out_write env st s = Raise UnicodeEncodeError.
Proof. intros He. unfold out_write. rewrite He. reflexivity. Qed.

Lemma write_chunk_ok env st chunk st' :
  write_chunk env st chunk = Ok st' ->
  count_total st' = count_total st /\ count_included st' = count_included st.
Proof.
  unfold write_chunk. destruct (out_write env st chunk) as [st1|e] eqn:H1;
    cbn [bind]; [|discriminate].
  apply out_write_ok in H1 as [-> _].
  destruct (negb (endswith chunk [chr_lf])).
  - intros H2. apply out_write_ok in H2 as [-> _]. split; reflexivity.
  - intros H2. injection H2 as <-. split; reflexivity.
Qed.


Lemma string_of_uint_encodable (d : Decimal.uint) :
  encodable (u (NilEmpty.string_of_uint d)) = true.
Proof.
  induction d; cbn [NilEmpty.string_of_uint]; rewrite ?u_String;
    try (cbn [encodable forallb]; fold (encodable (u (NilEmpty.string_of_uint d)));
         rewrite IHd; reflexivity).
  reflexivity.
Qed.

Lemma str_of_int_encodable (n : Z) : encodable (str_of_int n) = true.
Proof.
  unfold str_of_int, NilZero.string_of_int, NilZero.string_of_uint.
  destruct (Z.to_int n) as [d|d].
  - destruct d; try apply string_of_uint_encodable. reflexivity.
  - rewrite u_String. cbn [encodable forallb].
    change (negb (is_surrogate (N_of_ascii "-"))) with true. cbn [andb].
    destruct d; try apply string_of_uint_encodable. reflexivity.
Qed.


Lemma write_summary_ok env st st' :
  write_summary env st = Ok st' ->
  st' = {| out := out st ++ summary_text (count_total st) (count_included st);
           count_total := count_total st;
           count_included := count_included st |}.
Proof.
  unfold write_summary.
  destruct (out_write env st _) as [st1|e] eqn:H1; cbn [bind]; [|discriminate].
  apply out_write_ok in H1 as [-> _].
  cbn [count_total count_included].
  destruct (out_write env _ _) as [st2|e] eqn:H2; cbn [bind]; [|discriminate].
  apply out_write_ok in H2 as [-> _].
  cbn [count_total count_included].
  intros H3. apply out_write_ok in H3 as [-> _].
  cbn [out count_total count_included]. unfold summary_text.
  rewrite <- !app_assoc. reflexivity.
Qed.


Lemma write_summary_taken env st :
  (forall o, device_takes env o = true) ->
  write_summary env st
  = Ok {| out := out st ++ summary_text (count_total st) (count_included st);
          count_total := count_total st;
          count_included := count_included st |}.
Proof.
  intros Hd. unfold write_summary.
  rewrite out_write_taken by (reflexivity || apply Hd). cbn [bind].
  cbn [out count_total count_included].
  rewrite out_write_taken
    by (try apply Hd; rewrite !encodable_app, str_of_int_encodable; reflexivity).
  cbn [bind out count_total count_included].
  rewrite out_write_taken
    by (try apply Hd; rewrite !encodable_app, str_of_int_encodable; reflexivity).
  cbn [out count_total count_included]. unfold summary_text.
  rewrite <- !app_assoc. reflexivity.
Qed.

(** ** Per-file errors in the loop *)




(** ** Counters *)

Section Counters.
Variables (env : Env) (root : str) (args : Args) (total : list str).

Lemma counters_inv_step c c' :
  counters_inv total c -> step env root args c c' -> counters_inv total c'.
Proof.
  intros Hinv Hstep. destruct Hstep; unfold counters_inv in *; cbn in *;
    repeat match goal with
    | H : (if ?b then _ else _) = Ok _ |- _ => destruct b
    | H : out_write _ _ _ = Ok _ |- _ => apply out_write_ok in H as [-> _]
    | H : write_summary _ _ = Ok _ |- _ => apply write_summary_ok in H as ->
    | H : Ok _ = Ok _ |- _ => injection H as <-
    | H : Raise _ = Ok _ |- _ => discriminate H
    end; cbn; lia.
Qed.

Lemma counters_inv_steps c c' :
  counters_inv total c -> rtc (step env root args) c c' -> counters_inv total c'.
Proof.
  intros Hinv Hsteps. induction Hsteps as [|c1 c2 c3 H12 _ IH]; [exact Hinv|].
  apply IH. exact (counters_inv_step _ _ Hinv H12).
Qed.

Lemma counters_inv_le c :
  counters_inv total c -> count_included c.2 <= count_total c.2.
Proof. destruct c as [[] st]; unfold counters_inv; cbn; lia. Qed.

(** One turn of the loop in steps. *)
Lemma loop_body_steps path pending st st' :
  loop_body env root args st path = Ok st' ->
  rtc (step env root args) (AtFor (path :: pending), st) (AtFor pending, st').
Proof.
  unfold loop_body. cbv zeta. intros H.
  eapply rtc_l; [apply step_next|].
  destruct (process_file (seen_after env (out (incr_total st))) path root args)
    as [[chunk|]|e] eqn:Hp; cbn [bind] in H; [| |discriminate H].
  - unfold write_chunk in H.
    destruct (out_write env (incr_total st) chunk) as [st1|e] eqn:H1;
      cbn [bind] in H; [|discriminate H].
    destruct (if negb (endswith chunk [chr_lf]) then out_write env st1 [chr_lf]
              else Ok st1) as [st2|e] eqn:H2; cbn [bind] in H; [|discriminate H].
    injection H as <-.
    eapply rtc_l; [apply step_chunk; exact Hp|].
    eapply rtc_l; [apply step_write; exact H1|].
    eapply rtc_l; [apply step_newline; exact H2|].
    eapply rtc_l; [apply step_count|].
    apply rtc_refl.
  - injection H as <-.
    eapply rtc_l; [apply step_skip; exact Hp|]. apply rtc_refl.
Qed.

Lemma run_loop_steps paths st st' :
  run_loop env root args paths st = Ok st' ->
  rtc (step env root args) (AtFor paths, st) (AtSummary, st').
Proof.
  revert st. induction paths as [|p rest IH]; intros st H; cbn [run_loop] in H.
  - injection H as <-.
    eapply rtc_l; [apply step_exhausted|]. apply rtc_refl.
  - destruct (loop_body env root args st p) as [st1|e] eqn:Hb;
      cbn [bind] in H; [|discriminate H].
    eapply rtc_trans; [apply loop_body_steps; exact Hb|].
    apply IH. exact H.
Qed.
End Counters.

(** C3: at every point of a run, also of one that a failed write cuts
    short, the included counter is at most the scanned counter, and a run
    that reaches its end has scanned as many paths as the enumerator yields;
    a run of [main] that returns 0 has reached that end, with the counters
    and the output it reports. *)
Theorem counters_invariant (env : Env) (now : str) (ns : Namespace) :
  let w := at_start env in
  let root := os_path_abspath w (ns_root ns) in
  let args := main_args w ns in
  let paths := iter_files w root (include_hidden args) (ignore_dirs args) in
  (forall pt st,
      rtc (step env root args) (initial env now ns) (pt, st) ->
      count_included st <= count_total st)
  /\ (forall st,
      rtc (step env root args) (initial env now ns) (AtEnd, st) ->
      count_total st = Z.of_nat (length paths))
  /\ (forall o,
      main env now ns = Ok o -> exit_code o = 0 ->
      exists st,
        rtc (step env root args) (initial env now ns) (AtEnd, st)
        /\ output_file o = Some (out st)
        /\ final_counts o = Some (count_total st, count_included st)).
Proof.
  intros w root args paths.
  assert (Hinit : counters_inv paths (initial env now ns)).
  { unfold counters_inv, initial. cbv zeta. cbn [fst snd count_total count_included].
    fold w. fold root args. fold paths. lia. }
  split; [|split].
  - intros pt st Hsteps.
    exact (counters_inv_le paths _
             (counters_inv_steps env root args paths _ _ Hinit Hsteps)).
  - intros st Hsteps.
    pose proof (counters_inv_steps env root args paths _ _ Hinit Hsteps) as H.
    unfold counters_inv in H. cbn in H. lia.
  - intros o Hmain Hcode. unfold main in Hmain. cbv zeta in Hmain.
    fold w in Hmain. fold root in Hmain. fold args in Hmain. fold paths in Hmain.
    destruct (os_path_isdir w root); cbn [negb] in Hmain.
    2:{ injection Hmain as <-. discriminate Hcode. }
    destruct (open_w w (ns_output ns)); cbn [os_call bind] in Hmain;
      [|discriminate Hmain].
    destruct (out_write env {| out := []; count_total := 0; count_included := 0 |}
                (write_header w now root args)) as [st0|e] eqn:Hhead;
      cbn [bind] in Hmain; [|discriminate Hmain].
    destruct (run_loop env root args paths st0) as [st1|e] eqn:Hrun;
      cbn [bind] in Hmain; [|discriminate Hmain].
    destruct (write_summary env st1) as [st2|e] eqn:Hsum;
      cbn [bind] in Hmain; [|discriminate Hmain].
    destruct (stdout_error env _); [discriminate Hmain|].
    injection Hmain as <-. exists st2. split; [|split; reflexivity].
    unfold initial. cbv zeta. fold w. fold root args. fold paths.
    eapply rtc_l; [apply step_header; exact Hhead|].
    eapply rtc_trans; [apply run_loop_steps; exact Hrun|].
    eapply rtc_l; [apply step_summary; exact Hsum|]. apply rtc_refl.
Qed.

Lemma counters_invariant_witness :
  exists st,
    rtc (step (detached demo_world) (u "/repo") demo_args)
        (initial (detached demo_world) demo_now demo_ns) (AtEnd, st)
    /\ count_total st = 3 /\ count_included st = 2.
Proof.
  assert (Hc : match main (detached demo_world) demo_now demo_ns with
               | Ok o => exit_code o = 0 /\ final_counts o = Some (3, 2)
               | Raise _ => False
               end).
  { vm_compute. split; reflexivity. }
  destruct (main (detached demo_world) demo_now demo_ns) as [o|e] eqn:Hmain;
    [|destruct Hc].
  destruct Hc as [Hcode Hcounts].
  destruct (proj2 (proj2 (counters_invariant (detached demo_world) demo_now demo_ns))
              o Hmain Hcode) as (st & Hsteps & _ & Hfinal).
  exists st. split; [exact Hsteps|].
  rewrite Hcounts in Hfinal. injection Hfinal as <- <-. split; reflexivity.
Defined.

(** ** The output of a run *)

Lemma chunk_ends_lf w path root args chunk :
  process_file w path root args = Ok (Some chunk) ->
  endswith chunk [chr_lf] = true.
Proof.
  intros H. destruct (process_file_some _ _ _ _ _ H) as [content Hc].
  rewrite render_eq in Hc. apply (inj Some) in Hc.
  rewrite <- Hc. rewrite !app_assoc. apply endswith_lf.
Qed.


Section Unread.
Variables (env : Env) (root : str) (args : Args).

(** One turn of the loop on a path that [process_file] treats as in the
    file system at the start. *)
Lemma loop_body_unread st path :
  process_file (seen_after env (out st)) path root args
  = process_file (at_start env) path root args ->
  loop_body env root args st path
  = match chunk_of (at_start env) root args path with
    | Some chunk =>
        st' <- out_write env (incr_total st) chunk ;; Ok (incr_included st')
    | None => Ok (incr_total st)
    end.
Proof.
  intros Hsame. unfold loop_body, chunk_of. cbv zeta.
  change (out (incr_total st)) with (out st). rewrite Hsame.
  destruct (process_file (at_start env) path root args) as [[chunk|]|e] eqn:Hp;
    cbn [bind]; [|reflexivity|].
  - unfold write_chunk. rewrite (chunk_ends_lf _ _ _ _ _ Hp). cbn [negb].
    destruct (out_write env (incr_total st) chunk); reflexivity.
  - destruct (process_file_total (at_start env) path root args) as [r Hr].
    congruence.
Qed.

(** A loop that ends has written the chunks of the paths, in order. *)
Lemma run_loop_out paths st st' :
  (forall o path, path ∈ paths ->
     process_file (seen_after env o) path root args
     = process_file (at_start env) path root args) ->
  run_loop env root args paths st = Ok st' ->
  st' = {| out := out st ++ concat (omap (chunk_of (at_start env) root args) paths);
           count_total := count_total st + Z.of_nat (length paths);
           count_included :=
             count_included st
             + Z.of_nat (length (omap (chunk_of (at_start env) root args) paths)) |}
  /\ encodable (concat (omap (chunk_of (at_start env) root args) paths)) = true.
Proof.
  revert st. induction paths as [|p rest IH]; intros st Hun H.
  - cbn [run_loop] in H. injection H as <-.
    cbn [omap list_omap concat length]. destruct st as [o t i].
    cbn [out count_total count_included]. rewrite app_nil_r, !Z.add_0_r.
    split; reflexivity.
  - cbn [run_loop] in H.
    rewrite loop_body_unread in H by (apply Hun; left).
    assert (Hrest : forall o path, path ∈ rest ->
              process_file (seen_after env o) path root args
              = process_file (at_start env) path root args)
      by (intros o path Hin; apply Hun; right; exact Hin).
    cbn [omap list_omap].
    destruct (chunk_of (at_start env) root args p) as [chunk|]; cbn [bind] in H.
    + destruct (out_write env (incr_total st) chunk) as [st1|e] eqn:Hw;
        cbn [bind] in H; [|discriminate H].
      apply out_write_ok in Hw as [-> Henc].
      destruct (IH _ Hrest H) as [-> Hencs]. split.
      * cbn [incr_included incr_total out count_total count_included concat length].
        rewrite <- app_assoc.
        replace (count_total st + 1 + Z.of_nat (length rest))
          with (count_total st + Z.of_nat (S (length rest))) by lia.
        replace (count_included st + 1
                 + Z.of_nat (length (omap (chunk_of (at_start env) root args) rest)))
          with (count_included st
                + Z.of_nat (S (length (omap (chunk_of (at_start env) root args) rest))))
          by lia.
        reflexivity.
      * cbn [concat]. rewrite encodable_app, Henc, Hencs. reflexivity.
    + destruct (IH _ Hrest H) as [-> Hencs]. split; [|exact Hencs].
      cbn [incr_total out count_total count_included length].
      replace (count_total st + 1 + Z.of_nat (length rest))
        with (count_total st + Z.of_nat (S (length rest))) by lia.
      reflexivity.
Qed.

(** On a device that takes every write, the loop ends exactly when no
    chunk holds a lone surrogate. *)
Lemma run_loop_taken paths st :
  (forall o path, path ∈ paths ->
     process_file (seen_after env o) path root args
     = process_file (at_start env) path root args) ->
  (forall o, device_takes env o = true) ->
  run_loop env root args paths st
  = if encodable (concat (omap (chunk_of (at_start env) root args) paths))
    then Ok {| out := out st
                      ++ concat (omap (chunk_of (at_start env) root args) paths);
               count_total := count_total st + Z.of_nat (length paths);
               count_included :=
                 count_included st
                 + Z.of_nat (length (omap (chunk_of (at_start env) root args) paths)) |}
    else Raise UnicodeEncodeError.
Proof.
  intros Hun Hdev.
  destruct (run_loop env root args paths st) as [st'|e] eqn:Hrun.
  - destruct (run_loop_out _ _ _ Hun Hrun) as [-> ->]. reflexivity.
  - destruct (encodable (concat (omap (chunk_of (at_start env) root args) paths)))
      eqn:Henc.
    + exfalso. revert st Hun Hrun Henc.
      induction paths as [|p rest IH]; intros st Hun Hrun Henc;
        cbn [run_loop] in Hrun; [discriminate Hrun|].
      rewrite loop_body_unread in Hrun by (apply Hun; left).
      assert (Hrest : forall o path, path ∈ rest ->
                process_file (seen_after env o) path root args
                = process_file (at_start env) path root args)
        by (intros o path Hin; apply Hun; right; exact Hin).
      cbn [omap list_omap] in Henc.
      destruct (chunk_of (at_start env) root args p) as [chunk|];
        cbn [bind] in Hrun.
      * cbn [concat] in Henc. rewrite encodable_app in Henc.
        apply andb_true_iff in Henc as [Hc Hr].
        rewrite (out_write_taken _ _ _ Hc (Hdev _)) in Hrun. cbn [bind] in Hrun.
        exact (IH _ Hrest Hrun Hr).
      * exact (IH _ Hrest Hrun Henc).
    + f_equal. clear Henc. revert st Hun Hrun.
      induction paths as [|p rest IH]; intros st Hun Hrun;
        cbn [run_loop] in Hrun; [discriminate Hrun|].
      rewrite loop_body_unread in Hrun by (apply Hun; left).
      assert (Hrest : forall o path, path ∈ rest ->
                process_file (seen_after env o) path root args
                = process_file (at_start env) path root args)
        by (intros o path Hin; apply Hun; right; exact Hin).
      destruct (chunk_of (at_start env) root args p) as [chunk|];
        cbn [bind] in Hrun; [|exact (IH _ Hrest Hrun)].
      unfold out_write in Hrun. rewrite Hdev in Hrun. cbn [negb] in Hrun.
      destruct (encodable chunk); cbn [negb bind] in Hrun;
        [exact (IH _ Hrest Hrun)|].
      injection Hrun as <-. reflexivity.
Qed.
End Unread.





(** ** Two runs *)

(** Two texts that are equal around one part of the same length differ
    inside that part only. *)
Lemma single_difference {A : Type} (pre x1 x2 post t1 t2 : list A) (i : nat) :
  t1 = pre ++ x1 ++ post -> t2 = pre ++ x2 ++ post ->
  length x1 = length x2 ->
  t1 !! i <> t2 !! i ->
  (length pre <= i < length pre + length x1)%nat.
Proof.
  intros -> -> Hlen Hdiff.
  destruct (decide (i < length pre)%nat) as [Hlt|Hge].
  { exfalso. apply Hdiff. rewrite !lookup_app_l by exact Hlt. reflexivity. }
  destruct (decide (i < length pre + length x1)%nat) as [Hin|Hout]; [lia|].
  exfalso. apply Hdiff.
  rewrite !(lookup_app_r pre) by lia.
  rewrite (lookup_app_r x1), (lookup_app_r x2) by lia.
  rewrite Hlen. reflexivity.
Qed.

(** C9 as stated fails for a run that writes into the tree it scans: in
    [selfread_env] the output file [out.txt] is enumerated after [a.txt],
    when more than 8192 characters have been written; its chunk holds the
    header of the run, time stamp included, so that the outputs of two runs
    differ at the time stamp of the header (character 106) and again inside
    the chunk of [out.txt] (character 9743). *)
Lemma own_output_read_back :
  let t1 := text_of (main selfread_env demo_now selfread_ns) in
  let t2 := text_of (main selfread_env demo_later selfread_ns) in
  (exists o1 o2,
      main selfread_env demo_now selfread_ns = Ok o1
      /\ main selfread_env demo_later selfread_ns = Ok o2
      /\ output_file o1 = Some t1 /\ output_file o2 = Some t2)
  /\ t1 !! Z.to_nat 106 <> t2 !! Z.to_nat 106
  /\ t1 !! Z.to_nat 9743 <> t2 !! Z.to_nat 9743
  /\ ~ (exists pre post,
          t1 = pre ++ u "Generated: (local time) " ++ demo_now ++ chr_lf :: post
          /\ t2 = pre ++ u "Generated: (local time) " ++ demo_later
                  ++ chr_lf :: post)
  /\ ~ (forall (env : Env) (ns : Namespace) (now now' : str) (o o' : Outcome)
               (t t' : str),
          chr_lf ∉ now -> chr_lf ∉ now' ->
          main env now ns = Ok o -> main env now' ns = Ok o' ->
          output_file o = Some t -> output_file o' = Some t' ->
          exists pre post,
            t = pre ++ u "Generated: (local time) " ++ now ++ chr_lf :: post
            /\ t' = pre ++ u "Generated: (local time) " ++ now' ++ chr_lf :: post).
Proof.
  intros t1 t2.
  assert (Hcheck :
    match main selfread_env demo_now selfread_ns,
          main selfread_env demo_later selfread_ns with
    | Ok o1, Ok o2 =>
        match output_file o1, output_file o2 with
        | Some a, Some b =>
            negb (default 0 (a !! Z.to_nat 106) =? default 0 (b !! Z.to_nat 106))%N
            && negb (default 0 (a !! Z.to_nat 9743) =? default 0 (b !! Z.to_nat 9743))%N
        | _, _ => false
        end
    | _, _ => false
    end = true).
  { vm_compute. reflexivity. }
  subst t1 t2.
  destruct (main selfread_env demo_now selfread_ns) as [o1|e1] eqn:H1;
    [|discriminate Hcheck].
  destruct (main selfread_env demo_later selfread_ns) as [o2|e2] eqn:H2;
    [|discriminate Hcheck].
  cbn [text_of].
  destruct (output_file o1) as [a|] eqn:Ha; [|discriminate Hcheck].
  destruct (output_file o2) as [b|] eqn:Hb; [|discriminate Hcheck].
  cbn [default].
  apply andb_true_iff in Hcheck as [Hd1 Hd2].
  assert (D1 : a !! Z.to_nat 106 <> b !! Z.to_nat 106).
  { intros E. rewrite E, N.eqb_refl in Hd1. discriminate Hd1. }
  assert (D2 : a !! Z.to_nat 9743 <> b !! Z.to_nat 9743).
  { intros E. rewrite E, N.eqb_refl in Hd2. discriminate Hd2. }
  assert (Hno : ~ (exists pre post,
            a = pre ++ u "Generated: (local time) " ++ demo_now ++ chr_lf :: post
            /\ b = pre ++ u "Generated: (local time) " ++ demo_later
                   ++ chr_lf :: post)).
  { intros (pre & post & Ea & Eb).
    assert (Ea' : a = pre ++ (u "Generated: (local time) " ++ demo_now ++ [chr_lf])
                      ++ post)
      by (rewrite Ea, <- !app_assoc; reflexivity).
    assert (Eb' : b = pre ++ (u "Generated: (local time) " ++ demo_later ++ [chr_lf])
                      ++ post)
      by (rewrite Eb, <- !app_assoc; reflexivity).
    pose proof (single_difference _ _ _ _ _ _ _ Ea' Eb' eq_refl D1) as B1.
    pose proof (single_difference _ _ _ _ _ _ _ Ea' Eb' eq_refl D2) as B2.
    change (length (u "Generated: (local time) " ++ demo_now ++ [chr_lf]))
      with 44%nat in B1, B2.
    lia. }
  split; [exists o1, o2; split; [reflexivity|split; [reflexivity|split; assumption]]|].
  split; [exact D1|]. split; [exact D2|]. split; [exact Hno|].
  intros Hall. apply Hno.
  apply (Hall selfread_env selfread_ns demo_now demo_later o1 o2 a b).
  - intros H. apply list_elem_of_In in H. vm_compute in H. intuition discriminate.
  - intros H. apply list_elem_of_In in H. vm_compute in H. intuition discriminate.
  - exact H1.
  - exact H2.
  - exact Ha.
  - exact Hb.
Qed.

(** C9, as the code has it: in a run that does not read back its own
    output, on a device that takes every write, the outcome is a function of
    the environment and the command line, up to the time stamp written on
    the "Generated:" line of the header: two runs on the same tree with the
    same options raise the same exception, or end without output file in
    the same way, or write output files that differ only in the time stamp
    on that line. *)
Theorem two_runs_differ_in_timestamp_only (env : Env) (ns : Namespace) :
  output_unread env ns ->
  (forall o, device_takes env o = true) ->
  (exists e, forall now, chr_lf ∉ now -> encodable now = true ->
               main env now ns = Raise e)
  \/ (exists o, output_file o = None /\ forall now, main env now ns = Ok o)
  \/ (exists pre post code counts sout serr,
        forall now, chr_lf ∉ now -> encodable now = true ->
          main env now ns
          = Ok {| exit_code := code;
                  output_file :=
                    Some (pre ++ u "Generated: (local time) " ++ now
                          ++ chr_lf :: post);
                  final_counts := counts; stdout := sout; stderr := serr |}).
Proof.
  intros Hun Hdev. unfold output_unread in Hun. cbv zeta in Hun.
  unfold main. cbv zeta.
  set (w := at_start env) in *.
  set (root := os_path_abspath w (ns_root ns)) in *.
  set (args := main_args w ns) in *.
  set (paths := iter_files w root (include_hidden args) (ignore_dirs args)) in *.
  set (chunks := omap (chunk_of w root args) paths).
  destruct (os_path_isdir w root); cbn [negb].
  2:{ right. left. eexists. split; [|intros now; reflexivity]. reflexivity. }
  destruct (open_w w (ns_output ns)); cbn [os_call bind].
  2:{ left. exists OSError. reflexivity. }
  destruct (write_header_shape w root args) as (pre & post & Hh).
  assert (Henc : forall now, chr_lf ∉ now -> encodable now = true ->
            encodable (write_header w now root args)
            = encodable pre && encodable post).
  { intros now Hnow Hen. rewrite (Hh now Hnow).
    change (chr_lf :: post) with ([chr_lf] ++ post).
    rewrite !encodable_app, Hen.
    change (encodable (u "Generated: (local time) ")) with true.
    change (encodable [chr_lf]) with true. reflexivity. }
  destruct (encodable pre && encodable post) eqn:Hpp.
  2:{ left. exists UnicodeEncodeError. intros now Hnow Hen.
      rewrite out_write_surrogate by (apply Henc; assumption). reflexivity. }
  destruct (encodable (concat chunks)) eqn:Hcs.
  2:{ left. exists UnicodeEncodeError. intros now Hnow Hen.
      rewrite out_write_taken by (apply Hdev || (apply Henc; assumption)).
      cbn [bind]. rewrite (run_loop_taken env root args paths _ Hun Hdev).
      fold w. fold chunks. rewrite Hcs. reflexivity. }
  set (scanned := 0 + Z.of_nat (length paths)).
  set (included := 0 + Z.of_nat (length chunks)).
  set (message := u "Wrote " ++ ns_output ns ++ u ". Files scanned: "
                  ++ str_of_int scanned ++ u ", included: "
                  ++ str_of_int included ++ [chr_lf]).
  assert (Hrun : forall now, chr_lf ∉ now -> encodable now = true ->
    (st <- out_write env {| out := []; count_total := 0; count_included := 0 |}
             (write_header w now root args) ;;
     st <- run_loop env root args paths st ;;
     write_summary env st)
    = Ok {| out := pre ++ u "Generated: (local time) " ++ now
                   ++ chr_lf :: (post ++ concat chunks
                                 ++ summary_text scanned included);
            count_total := scanned; count_included := included |}).
  { intros now Hnow Hen.
    rewrite out_write_taken by (apply Hdev || (apply Henc; assumption)).
    cbn [bind]. rewrite (run_loop_taken env root args paths _ Hun Hdev).
    fold w. fold chunks. rewrite Hcs. cbn [bind].
    rewrite (write_summary_taken _ _ Hdev).
    cbn [out count_total count_included app]. fold scanned. fold included.
    rewrite (Hh now Hnow), <- !app_assoc. reflexivity. }
  destruct (stdout_error env message) as [e|] eqn:Hprint.
  - left. exists e. intros now Hnow Hen.
    specialize (Hrun now Hnow Hen).
    destruct (out_write env _ (write_header w now root args)) as [st0|e0];
      cbn [bind] in Hrun |- *; [|discriminate Hrun].
    destruct (run_loop env root args paths st0) as [st1|e1];
      cbn [bind] in Hrun |- *; [|discriminate Hrun].
    rewrite Hrun. cbn [bind count_total count_included].
    fold message. rewrite Hprint. reflexivity.
  - right. right.
    exists pre, (post ++ concat chunks ++ summary_text scanned included), 0,
      (Some (scanned, included)), message, [].
    intros now Hnow Hen.
    specialize (Hrun now Hnow Hen).
    destruct (out_write env _ (write_header w now root args)) as [st0|e0];
      cbn [bind] in Hrun |- *; [|discriminate Hrun].
    destruct (run_loop env root args paths st0) as [st1|e1];
      cbn [bind] in Hrun |- *; [|discriminate Hrun].
    rewrite Hrun. cbn [bind count_total count_included out].
    fold message. rewrite Hprint. reflexivity.
Qed.

Lemma two_runs_differ_in_timestamp_only_witness :
  exists pre post o1 o2,
    main (detached demo_world) demo_now demo_ns = Ok o1
    /\ main (detached demo_world) demo_later demo_ns = Ok o2
    /\ output_file o1
        = Some (pre ++ u "Generated: (local time) " ++ demo_now ++ chr_lf :: post)
    /\ output_file o2
        = Some (pre ++ u "Generated: (local time) " ++ demo_later ++ chr_lf :: post).
Proof.
  assert (Hnow : chr_lf ∉ demo_now).
  { intros H. apply list_elem_of_In in H. vm_compute in H. intuition discriminate. }
  assert (Hlater : chr_lf ∉ demo_later).
  { intros H. apply list_elem_of_In in H. vm_compute in H. intuition discriminate. }
  assert (Hun : output_unread (detached demo_world) demo_ns)
    by (intros o path _; reflexivity).
  destruct (two_runs_differ_in_timestamp_only (detached demo_world) demo_ns Hun
              (fun _ => eq_refl))
    as [[e H]|[(o & Ho & H)|(pre & post & code & counts & sout & serr & H)]].
  - exfalso. specialize (H demo_now Hnow eq_refl). vm_compute in H. discriminate H.
  - exfalso. specialize (H demo_now).
    assert (Hf : match main (detached demo_world) demo_now demo_ns with
                 | Ok o => output_file o | Raise _ => None end <> None)
      by (vm_compute; discriminate).
    rewrite H in Hf. exact (Hf Ho).
  - exists pre, post. eexists. eexists.
    split; [exact (H demo_now Hnow eq_refl)|].
    split; [exact (H demo_later Hlater eq_refl)|].
    split; reflexivity.
Defined.

(** ** Runs, evaluated *)

Example demo_counts :
  match main (detached demo_world) demo_now demo_ns with
  | Ok o => exit_code o = 0 /\ final_counts o = Some (3, 2)
  | Raise _ => False
  end.
Proof. vm_compute. split; reflexivity. Qed.

(** A file whose name is not valid UTF-8 stops the run: the chunks of the
    files after it are never written. *)
Example surrogate_name_stops_run :
  iter_files surrogate_world (u "/repo") false (ignore_dirs demo_args)
  = [u "/repo/a.py"; u "/repo/" ++ 56575%N :: u ".py"; u "/repo/z.py"]
  /\ main (detached surrogate_world) demo_now demo_ns = Raise UnicodeEncodeError.
Proof. vm_compute. split; reflexivity. Qed.
